(** * RTMR3 calculator: the measurement-replay core of [src/rtmr3.tsx]

    A shallow embedding of the hex codec, the event digest builder, the
    compose-manifest hasher, the register replay and the orchestrating
    [calculateValues], together with the parts of the JavaScript platform
    they call ([String.prototype.match], [parseInt], typed arrays,
    [TextEncoder], [JSON], [crypto.subtle.digest]).

    Conventions.
    - A JavaScript string is the list of its UTF-16 code units, each a
      number below 65536 kept in [N].
    - A [Uint8Array] is a [list byte].
    - An operation that can throw returns [option]; [None] is the thrown
      exception, which the enclosing [try]/[catch] of the source turns into
      the empty string.
    - [await] on a digest is sequential here, so the asynchronous functions
      are plain functions. *)

From Stdlib Require Import List NArith ZArith Bool Arith Lia.
From Stdlib Require Import Ascii String.
From Stdlib Require Import Init.Byte Strings.Byte.
Import ListNotations.

Local Open Scope N_scope.

(** * The program *)

(** ** JavaScript strings *)

Definition jsstring := list N.

(** A source literal made of ASCII characters. *)
Definition js (s : string) : jsstring :=
  List.map N_of_ascii (list_ascii_of_string s).

(** [s.repeat(n)] *)
Fixpoint String_repeat (s : jsstring) (n : nat) : jsstring :=
  match n with
  | O => []
  | S k => s ++ String_repeat s k
  end.

(** [s.padStart(targetLength, fill)] for a one-unit [fill]. *)
Definition String_padStart (s : jsstring) (targetLength : nat) (fill : N)
  : jsstring :=
  List.repeat fill (targetLength - List.length s) ++ s.

(** [parts.join("")] *)
Definition Array_join_empty (parts : list jsstring) : jsstring :=
  List.concat parts.

(** A string is falsy exactly when it is empty: [!s]. *)
Definition String_not (s : jsstring) : bool :=
  match s with [] => true | _ => false end.

(** *** White space

    [WhiteSpace] and [LineTerminator] of ECMAScript, the characters that
    [trim] and [parseInt] strip. *)
Definition isWhiteSpace (c : N) : bool :=
  (c =? 9) || (c =? 10) || (c =? 11) || (c =? 12) || (c =? 13) ||
  (c =? 32) || (c =? 160) || (c =? 5760) ||
  ((8192 <=? c) && (c <=? 8202)) ||
  (c =? 8232) || (c =? 8233) || (c =? 8239) || (c =? 8287) ||
  (c =? 12288) || (c =? 65279).

Fixpoint trimStart (s : jsstring) : jsstring :=
  match s with
  | c :: rest => if isWhiteSpace c then trimStart rest else s
  | [] => []
  end.

(** [s.trim()] *)
Definition String_trim (s : jsstring) : jsstring :=
  List.rev (trimStart (List.rev (trimStart s))).

(** ** Regular expression [/[\dA-F]{2}/gi] *)

(** [\d]: the ten ASCII digits. *)
Definition isDigit (c : N) : bool := (48 <=? c) && (c <=? 57).

(** [A-F] under the [i] flag: either case.  No unit above 127 folds onto an
    ASCII letter without the [u] flag. *)
Definition isAtoF (c : N) : bool :=
  ((65 <=? c) && (c <=? 70)) || ((97 <=? c) && (c <=? 102)).

Definition hexClass (c : N) : bool := isDigit c || isAtoF c.

(** The successive matches of the global scan.  At a position where two
    units of the class follow each other the match is taken and the scan
    resumes after it; elsewhere the scan moves on by one unit. *)
Fixpoint matchAll (s : jsstring) : list jsstring :=
  match s with
  | a :: tl =>
      match tl with
      | b :: rest =>
          if hexClass a && hexClass b then [a; b] :: matchAll rest
          else matchAll tl
      | [] => []
      end
  | [] => []
  end.

(** [hex.match(/[\dA-F]{2}/gi)]: the array of matches, or [null] ([None])
    when there is none. *)
Definition String_match_hexpairs (s : jsstring) : option (list jsstring) :=
  match matchAll s with
  | [] => None
  | l => Some l
  end.

(** ** [parseInt] *)

(** The value of a unit as a digit, whatever the radix: [0-9], [a-z], [A-Z]. *)
Definition digitValue (c : N) : option N :=
  if (48 <=? c) && (c <=? 57) then Some (c - 48)
  else if (97 <=? c) && (c <=? 122) then Some (c - 87)
  else if (65 <=? c) && (c <=? 90) then Some (c - 55)
  else None.

(** The longest prefix of radix digits, accumulated. *)
Fixpoint parseDigits (radix : N) (s : jsstring) (acc : N) (seen : bool)
  : option N :=
  match s with
  | c :: rest =>
      match digitValue c with
      | Some d =>
          if d <? radix then parseDigits radix rest (acc * radix + d) true
          else if seen then Some acc else None
      | None => if seen then Some acc else None
      end
  | [] => if seen then Some acc else None
  end.

Definition stripHexPrefix (radix : N) (s : jsstring) : jsstring :=
  match s with
  | 48 :: x :: rest =>
      if (radix =? 16) && ((x =? 120) || (x =? 88)) then rest else s
  | _ => s
  end.

(** [parseInt(s, radix)] for a radix from 2 to 36; [None] is [NaN]. *)
Definition parseInt (s : jsstring) (radix : N) : option Z :=
  let s1 := trimStart s in
  let '(neg, s2) :=
    match s1 with
    | 45 :: r => (true, r)
    | 43 :: r => (false, r)
    | _ => (false, s1)
    end in
  match parseDigits radix (stripHexPrefix radix s2) 0 false with
  | Some n => Some (if neg then (- Z.of_N n)%Z else Z.of_N n)
  | None => None
  end.

(** ** Typed arrays *)

Definition Uint8Array := list byte.

(** [ToUint8]: [NaN] becomes 0, an integer is taken modulo 256. *)
Definition ToUint8 (x : option Z) : byte :=
  match x with
  | None => x00
  | Some z =>
      match Byte.of_N (Z.to_N (z mod 256)%Z) with
      | Some b => b
      | None => x00
      end
  end.

(** [new Uint8Array(numbers)] *)
Definition Uint8Array_from (l : list (option Z)) : Uint8Array :=
  List.map ToUint8 l.

(** [new Uint8Array(n)]: [n] zero bytes. *)
Definition Uint8Array_new (n : nat) : Uint8Array := List.repeat x00 n.

(** [target.set(source, offset)]: a [RangeError] when the source does not
    fit. *)
Definition Uint8Array_set (target source : Uint8Array) (offset : nat)
  : option Uint8Array :=
  if (offset + List.length source <=? List.length target)%nat
  then Some (List.firstn offset target ++ source ++
             List.skipn (offset + List.length source) target)
  else None.

(** [new DataView(a.buffer).setUint32(byteOffset, value, littleEndian)],
    giving the array after the write; a [RangeError] when four bytes do not
    fit at the offset. *)
Definition byteOf (n : N) : byte :=
  match Byte.of_N (n mod 256) with Some b => b | None => x00 end.

Definition DataView_setUint32 (a : Uint8Array) (byteOffset : nat) (value : N)
    (littleEndian : bool) : option Uint8Array :=
  let v := value mod 4294967296 in
  let be := [byteOf (N.shiftr v 24); byteOf (N.shiftr v 16);
             byteOf (N.shiftr v 8); byteOf v] in
  Uint8Array_set a (if littleEndian then List.rev be else be) byteOffset.

(** ** Number to string *)

Definition digitChar (d : N) : N := if d <? 10 then 48 + d else 87 + d.

Fixpoint radixDigits (fuel : nat) (radix n : N) (acc : jsstring) : jsstring :=
  match fuel with
  | O => acc
  | S k =>
      let acc' := digitChar (n mod radix) :: acc in
      if n <? radix then acc' else radixDigits k radix (n / radix) acc'
  end.

(** [n.toString(radix)] for a non-negative integer [n]: lowercase digits,
    no leading zero.  The fuel is the bit length, which bounds the number of
    digits for every radix. *)
Definition Number_toString (n radix : N) : jsstring :=
  radixDigits (S (N.size_nat n)) radix n [].

(** ** The hex codec of the source *)

Definition INIT_MR : jsstring := String_repeat (js "0") 96.

Definition hexToUint8Array (hex : jsstring) : Uint8Array :=
  let pairs :=
    match String_match_hexpairs hex with
    | Some l => l
    | None => []
    end in
  Uint8Array_from (List.map (fun s => parseInt s 16) pairs).

Definition uint8ArrayToHex (uint8Array : Uint8Array) : jsstring :=
  Array_join_empty
    (List.map (fun b => String_padStart (Number_toString (Byte.to_N b) 16) 2 48)
              uint8Array).

(** ** [crypto.subtle.digest]: SHA-256 and SHA-384 (FIPS 180-4)

    The platform's digest, written out so that the functions of the source
    can be evaluated on concrete inputs.  Words are numbers below [2^w] in
    [N]; every addition is reduced modulo [2^w]. *)
Module SHA2.

Record params := {
  wbits : N;                           (* word size: 32 or 64 *)
  K : list N;                          (* round constants, one per round *)
  bigSigma0 : N * N * N;               (* rotations of Sigma0 *)
  bigSigma1 : N * N * N;               (* rotations of Sigma1 *)
  smallSigma0 : N * N * N;             (* two rotations and a shift *)
  smallSigma1 : N * N * N
}.

Section Core.
Variable p : params.

Definition wmask (x : N) : N := x mod 2 ^ wbits p.
Definition add (x y : N) : N := wmask (x + y).
Definition rotr (n x : N) : N :=
  N.lor (N.shiftr x n) (wmask (N.shiftl x (wbits p - n))).
Definition shr (n x : N) : N := N.shiftr x n.
Definition xor3 (x y z : N) : N := N.lxor (N.lxor x y) z.

Definition Ch (x y z : N) : N := N.lxor (N.land x y) (N.ldiff z x).
Definition Maj (x y z : N) : N :=
  xor3 (N.land x y) (N.land x z) (N.land y z).
Definition Sigma (r : N * N * N) (x : N) : N :=
  let '(a, b, c) := r in xor3 (rotr a x) (rotr b x) (rotr c x).
Definition sigma (r : N * N * N) (x : N) : N :=
  let '(a, b, c) := r in xor3 (rotr a x) (rotr b x) (shr c x).

Definition state := (N * N * N * N * N * N * N * N)%type.

Definition round (st : state) (k wt : N) : state :=
  let '(a, b, c, d, e, f, g, h) := st in
  let T1 := add (add (add (add h (Sigma (bigSigma1 p) e)) (Ch e f g)) k) wt in
  let T2 := add (Sigma (bigSigma0 p) a) (Maj a b c) in
  (add T1 T2, a, b, c, add d T1, e, f, g).

(** The rounds over a sliding window of the last sixteen schedule words:
    round [t] consumes [W_t], the head, and appends [W_(t+16)]. *)
Fixpoint rounds (ks : list N) (win : list N) (st : state) : state :=
  match ks with
  | [] => st
  | k :: ks' =>
      let wt := List.nth 0 win 0 in
      let next :=
        add (add (add (sigma (smallSigma1 p) (List.nth 14 win 0))
                      (List.nth 9 win 0))
                 (sigma (smallSigma0 p) (List.nth 1 win 0)))
            wt in
      rounds ks' (List.tl win ++ [next]) (round st k wt)
  end.

Definition compress (H : state) (block : list N) : state :=
  let '(a, b, c, d, e, f, g, h) := rounds (K p) block H in
  let '(a0, b0, c0, d0, e0, f0, g0, h0) := H in
  (add a0 a, add b0 b, add c0 c, add d0 d,
   add e0 e, add f0 f, add g0 g, add h0 h).

(** Big-endian number of a byte string. *)
Definition beValue (bs : list byte) : N :=
  List.fold_left (fun acc b => acc * 256 + Byte.to_N b) bs 0.

(** Big-endian bytes of a number, [n] of them. *)
Fixpoint beBytes (n : nat) (x : N) : list byte :=
  match n with
  | O => []
  | S k => byteOf (N.shiftr x (8 * N.of_nat k)) :: beBytes k x
  end.

Definition wbytes : nat := N.to_nat (wbits p / 8).
Definition blockBytes : nat := 16 * wbytes.

Fixpoint chunks (fuel n : nat) (l : list byte) : list (list byte) :=
  match fuel with
  | O => []
  | S f =>
      match l with
      | [] => []
      | _ => List.firstn n l :: chunks f n (List.skipn n l)
      end
  end.

(** The message, the byte 0x80, the least number of zero bytes, and the bit
    length on two words, filling whole blocks. *)
Definition pad (msg : list byte) : list byte :=
  let len := List.length msg in
  let used := ((len + 1 + 2 * wbytes) mod blockBytes)%nat in
  let zeros := ((blockBytes - used) mod blockBytes)%nat in
  msg ++ [x80] ++ List.repeat x00 zeros ++
  beBytes (2 * wbytes) (8 * N.of_nat len).

Definition blocks (msg : list byte) : list (list N) :=
  let padded := pad msg in
  List.map (fun blk => List.map beValue (chunks 16 wbytes blk))
           (chunks (List.length padded) blockBytes padded).

Definition hashState (IV : state) (msg : list byte) : state :=
  List.fold_left compress (blocks msg) IV.

End Core.

(** The constants are fractional parts of roots of the first primes: the
    round constants of cube roots, the initial states of square roots. *)
Definition isPrime (n : nat) : bool :=
  (2 <=? n)%nat &&
  List.forallb (fun d => negb (n mod d =? 0)%nat) (List.seq 2 (n - 2)).

Definition primes (count : nat) : list N :=
  List.map N.of_nat (List.firstn count (List.filter isPrime (List.seq 2 420))).

(** The largest [r] below [2^bits] with [r^k <= n], one bit at a time. *)
Fixpoint rootBits (k n : N) (bits : nat) (acc : N) : N :=
  match bits with
  | O => acc
  | S b =>
      let candidate := acc + 2 ^ N.of_nat b in
      if candidate ^ k <=? n then rootBits k n b candidate
      else rootBits k n b acc
  end.

(** The first [w] bits of the fractional part of the [k]-th root of [q]. *)
Definition rootFraction (k w q : N) : N :=
  rootBits k (q * 2 ^ (k * w)) (N.to_nat w + 4) 0 mod 2 ^ w.

Definition stateOf (words : list N) : state :=
  match words with
  | [a; b; c; d; e; f; g; h] => (a, b, c, d, e, f, g, h)
  | _ => (0, 0, 0, 0, 0, 0, 0, 0)
  end.

Definition K256 : list N :=
  Eval vm_compute in List.map (rootFraction 3 32) (primes 64).

Definition K512 : list N :=
  Eval vm_compute in List.map (rootFraction 3 64) (primes 80).

Definition IV256 : state :=
  Eval vm_compute in stateOf (List.map (rootFraction 2 32) (primes 8)).

Definition IV384 : state :=
  Eval vm_compute in
    stateOf (List.map (rootFraction 2 64) (List.skipn 8 (primes 16))).

Definition sha256_params : params :=
  {| wbits := 32; K := K256;
     bigSigma0 := (2, 13, 22); bigSigma1 := (6, 11, 25);
     smallSigma0 := (7, 18, 3); smallSigma1 := (17, 19, 10) |}.

Definition sha512_params : params :=
  {| wbits := 64; K := K512;
     bigSigma0 := (28, 34, 39); bigSigma1 := (14, 18, 41);
     smallSigma0 := (1, 8, 7); smallSigma1 := (19, 61, 6) |}.

(** SHA-256: the eight words of the final state, 32 bytes. *)
Definition sha256 (msg : list byte) : list byte :=
  let '(a, b, c, d, e, f, g, h) := hashState sha256_params IV256 msg in
  beBytes 4 a ++ beBytes 4 b ++ beBytes 4 c ++ beBytes 4 d ++
  beBytes 4 e ++ beBytes 4 f ++ beBytes 4 g ++ beBytes 4 h.

(** SHA-384: SHA-512 from its own initial state, cut to the first six
    words, 48 bytes. *)
Definition sha384 (msg : list byte) : list byte :=
  let '(a, b, c, d, e, f, _, _) := hashState sha512_params IV384 msg in
  beBytes 8 a ++ beBytes 8 b ++ beBytes 8 c ++
  beBytes 8 d ++ beBytes 8 e ++ beBytes 8 f.

End SHA2.

(** The bytes of an ASCII literal. *)
Definition asciiBytes (s : string) : list byte :=
  List.map byte_of_ascii (list_ascii_of_string s).

(** ** [TextEncoder.prototype.encode]

    UTF-8 of the string read as UTF-16: a surrogate pair is one code point
    on four bytes, a lone surrogate becomes U+FFFD. *)
Definition isHighSurrogate (c : N) : bool := (0xD800 <=? c) && (c <=? 0xDBFF).
Definition isLowSurrogate (c : N) : bool := (0xDC00 <=? c) && (c <=? 0xDFFF).

Definition utf8Three (c : N) : list byte :=
  [byteOf (0xE0 + c / 4096); byteOf (0x80 + (c / 64) mod 64);
   byteOf (0x80 + c mod 64)].

Definition utf8Four (cp : N) : list byte :=
  [byteOf (0xF0 + cp / 262144); byteOf (0x80 + (cp / 4096) mod 64);
   byteOf (0x80 + (cp / 64) mod 64); byteOf (0x80 + cp mod 64)].

Fixpoint TextEncoder_encode (s : jsstring) : Uint8Array :=
  match s with
  | [] => []
  | c :: rest =>
      if c <? 0x80 then byteOf c :: TextEncoder_encode rest
      else if c <? 0x800 then
        byteOf (0xC0 + c / 64) :: byteOf (0x80 + c mod 64)
          :: TextEncoder_encode rest
      else if isHighSurrogate c then
        match rest with
        | d :: rest' =>
            if isLowSurrogate d then
              utf8Four (0x10000 + (c - 0xD800) * 0x400 + (d - 0xDC00))
                ++ TextEncoder_encode rest'
            else utf8Three 0xFFFD ++ TextEncoder_encode rest
        | [] => utf8Three 0xFFFD
        end
      else if isLowSurrogate c then utf8Three 0xFFFD ++ TextEncoder_encode rest
      else utf8Three c ++ TextEncoder_encode rest
  end.

(** ** Exceptions *)

Definition bind {A B : Type} (x : option A) (k : A -> option B) : option B :=
  match x with
  | Some a => k a
  | None => None
  end.

Notation "'let*' x ':=' e 'in' k" := (bind e (fun x => k))
  (at level 10, x name, e at level 100, k at level 200).

(** [try { body } catch (error) { console.error(...); return ""; }] *)
Definition try_catch_empty (body : option jsstring) : jsstring :=
  match body with
  | Some r => r
  | None => []
  end.

(** ** The functions of the source *)

Definition sha384 : Uint8Array -> Uint8Array := SHA2.sha384.
Definition sha256 : Uint8Array -> Uint8Array := SHA2.sha256.

(** The buffer that one turn of the loop of [rtmrReplay] hands to the
    digest: lines 26 to 35. *)
Definition replayCombined (mr : Uint8Array) (content : jsstring)
  : option Uint8Array :=
  let contentArray := hexToUint8Array content in
  let* contentArray :=
    if (List.length contentArray <? 48)%nat then
      let paddedArray := Uint8Array_new 48 in
      Uint8Array_set paddedArray contentArray 0
    else Some contentArray in
  let combined := Uint8Array_new (List.length mr + List.length contentArray) in
  let* combined := Uint8Array_set combined mr 0 in
  Uint8Array_set combined contentArray (List.length mr).

(** The loop: each turn replaces [mr] by the digest of its buffer; an
    exception leaves the function with the empty string. *)
Fixpoint replayLoop (mr : Uint8Array) (history : list jsstring) : jsstring :=
  match history with
  | [] => uint8ArrayToHex mr
  | content :: rest =>
      match replayCombined mr content with
      | Some combined => replayLoop (sha384 combined) rest
      | None => []
      end
  end.

Definition rtmrReplay (history : list jsstring) : jsstring :=
  if (List.length history =? 0)%nat then INIT_MR
  else replayLoop (hexToUint8Array INIT_MR) history.

Definition calcDigest (eventName eventValue : jsstring) : jsstring :=
  if String_not eventValue then []
  else try_catch_empty (
    let* dstackEventTag :=
      DataView_setUint32 (Uint8Array_new 4) 0 0x08000001 true in
    let eventNameBytes := TextEncoder_encode eventName in
    let separator := TextEncoder_encode (js ":") in
    let valueBytes := hexToUint8Array eventValue in
    let totalLength :=
      (List.length dstackEventTag + List.length separator * 2 +
       List.length eventNameBytes + List.length valueBytes)%nat in
    let combined := Uint8Array_new totalLength in
    let offset := 0%nat in
    let* combined := Uint8Array_set combined dstackEventTag offset in
    let offset := (offset + List.length dstackEventTag)%nat in
    let* combined := Uint8Array_set combined separator offset in
    let offset := (offset + List.length separator)%nat in
    let* combined := Uint8Array_set combined eventNameBytes offset in
    let offset := (offset + List.length eventNameBytes)%nat in
    let* combined := Uint8Array_set combined separator offset in
    let offset := (offset + List.length separator)%nat in
    let* combined := Uint8Array_set combined valueBytes offset in
    Some (uint8ArrayToHex (sha384 combined))).

(** ** [JSON]

    The Number values of JavaScript are IEEE doubles; reading a number token
    and printing a double are left to an interface, and nothing proved below
    depends on how it is filled.  [StringToNumber] receives a token of the
    JSON number grammar; [Number_toJSON] is what [JSON.stringify] writes for
    the value (its [ToString], or [null] when it is not finite). *)
Class NumberOps := {
  JSNumber : Type;
  StringToNumber : jsstring -> JSNumber;
  Number_toJSON : JSNumber -> jsstring
}.

(** [JSON.stringify] descends into arrays and objects on the stack of the
    engine and throws a [RangeError] when a value is nested deeper than the
    stack holds.  How deep that is depends on the engine; every engine
    holds the two levels of an object inside an object. *)
Class Engine := {
  stackDepth : nat;
  stackDepth_min : (2 <=? stackDepth)%nat = true
}.

Section Manifest.
Context {num : NumberOps} {engine : Engine}.

(** A value that [JSON.parse] can build.  The properties of an object are
    listed in the order of [OwnPropertyKeys]: array indices first, ascending,
    then the other keys in the order of their creation. *)
#[local] Unset Elimination Schemes.
Inductive JSValue : Type :=
| JNull
| JBool (b : bool)
| JNumber (n : JSNumber)
| JString (s : jsstring)
| JArray (elements : list JSValue)
| JObject (props : list (jsstring * JSValue)).
#[local] Set Elimination Schemes.

Definition properties := list (jsstring * JSValue).

Definition jsstring_eqb (a b : jsstring) : bool :=
  if list_eq_dec N.eq_dec a b then true else false.

Definition decimalValue (s : jsstring) : N :=
  List.fold_left (fun acc c => acc * 10 + (c - 48)) s 0.

(** An array index is the canonical decimal string of a number below
    [2^32 - 1]. *)
Definition arrayIndex (k : jsstring) : option N :=
  match k with
  | [] => None
  | c :: rest =>
      if (List.forallb isDigit k && (List.length k <=? 10)%nat &&
          (negb (c =? 48) || String_not rest))%bool
      then if decimalValue k <? 4294967295 then Some (decimalValue k) else None
      else None
  end.

(** The value of an existing key is replaced where the key stands. *)
Fixpoint replaceValue (props : properties) (k : jsstring) (v : JSValue)
  : option properties :=
  match props with
  | [] => None
  | (k', v') :: rest =>
      if jsstring_eqb k' k then Some ((k', v) :: rest)
      else option_map (cons (k', v')) (replaceValue rest k v)
  end.

(** A new array index goes before the first key that is no index or a
    larger one. *)
Fixpoint insertIndex (props : properties) (i : N) (k : jsstring) (v : JSValue)
  : properties :=
  match props with
  | [] => [(k, v)]
  | (k', v') :: rest =>
      match arrayIndex k' with
      | Some j =>
          if j <? i then (k', v') :: insertIndex rest i k v
          else (k, v) :: props
      | None => (k, v) :: props
      end
  end.

(** [CreateDataProperty(obj, k, v)] on an ordinary object. *)
Definition defineProperty (props : properties) (k : jsstring) (v : JSValue)
  : properties :=
  match replaceValue props k v with
  | Some props' => props'
  | None =>
      match arrayIndex k with
      | Some i => insertIndex props i k v
      | None => props ++ [(k, v)]
      end
  end.

(** *** [JSON.parse] *)

Definition isJSONWhiteSpace (c : N) : bool :=
  (c =? 32) || (c =? 9) || (c =? 10) || (c =? 13).

Fixpoint skipWs (s : jsstring) : jsstring :=
  match s with
  | c :: rest => if isJSONWhiteSpace c then skipWs rest else s
  | [] => []
  end.

Definition hexDigitValue (c : N) : option N :=
  if hexClass c then digitValue c else None.

Definition simpleEscape (e : N) : option N :=
  if e =? 34 then Some 34            (* quotation mark *)
  else if e =? 92 then Some 92       (* reverse solidus *)
  else if e =? 47 then Some 47       (* solidus *)
  else if e =? 98 then Some 8        (* b: backspace *)
  else if e =? 102 then Some 12      (* f: form feed *)
  else if e =? 110 then Some 10      (* n: line feed *)
  else if e =? 114 then Some 13      (* r: carriage return *)
  else if e =? 116 then Some 9       (* t: tab *)
  else None.

(** The units of a string token after its opening quote, and what follows
    the closing quote. *)
Fixpoint parseStringBody (s : jsstring) : option (jsstring * jsstring) :=
  match s with
  | [] => None
  | c :: rest =>
      if c =? 34 then Some ([], rest)
      else if c <? 32 then None
      else if c =? 92 then
        match rest with
        | [] => None
        | e :: rest1 =>
            if e =? 117 then
              match rest1 with
              | h1 :: h2 :: h3 :: h4 :: rest2 =>
                  match hexDigitValue h1, hexDigitValue h2,
                        hexDigitValue h3, hexDigitValue h4 with
                  | Some a, Some b, Some c', Some d =>
                      match parseStringBody rest2 with
                      | Some (str, r) =>
                          Some (((a * 16 + b) * 16 + c') * 16 + d :: str, r)
                      | None => None
                      end
                  | _, _, _, _ => None
                  end
              | _ => None
              end
            else
              match simpleEscape e with
              | Some u =>
                  match parseStringBody rest1 with
                  | Some (str, r) => Some (u :: str, r)
                  | None => None
                  end
              | None => None
              end
        end
      else
        match parseStringBody rest with
        | Some (str, r) => Some (c :: str, r)
        | None => None
        end
  end.

Fixpoint spanDigits (s : jsstring) : jsstring * jsstring :=
  match s with
  | c :: rest =>
      if isDigit c then let '(ds, r) := spanDigits rest in (c :: ds, r)
      else ([], s)
  | [] => ([], [])
  end.

(** One or more digits. *)
Definition digits1 (s : jsstring) : option (jsstring * jsstring) :=
  match spanDigits s with
  | ([], _) => None
  | dr => Some dr
  end.

(** The first unit when it passes the test, or nothing. *)
Definition takeIf (test : N -> bool) (s : jsstring) : jsstring * jsstring :=
  match s with
  | c :: r => if test c then ([c], r) else ([], s)
  | [] => ([], s)
  end.

(** A zero, or a digit from 1 to 9 and any digits. *)
Definition intPart (s : jsstring) : option (jsstring * jsstring) :=
  match s with
  | c :: r => if c =? 48 then Some ([c], r) else digits1 s
  | [] => None
  end.

(** Nothing, or a point and one or more digits. *)
Definition fracPart (s : jsstring) : option (jsstring * jsstring) :=
  match s with
  | c :: r =>
      if c =? 46 then
        let* dr := digits1 r in Some (c :: fst dr, snd dr)
      else Some ([], s)
  | [] => Some ([], s)
  end.

(** Nothing, or [e] or [E], an optional sign and one or more digits. *)
Definition expPart (s : jsstring) : option (jsstring * jsstring) :=
  match s with
  | e :: r =>
      if (e =? 101) || (e =? 69) then
        let sr := takeIf (fun c => (c =? 43) || (c =? 45)) r in
        let* dr := digits1 (snd sr) in
        Some (e :: fst sr ++ fst dr, snd dr)
      else Some ([], s)
  | [] => Some ([], s)
  end.

(** The longest number token at the head of [s]: an optional minus sign,
    the integer part, the fraction and the exponent. *)
Definition parseNumberToken (s : jsstring) : option (jsstring * jsstring) :=
  let sign := takeIf (N.eqb 45) s in
  let* int := intPart (snd sign) in
  let* frac := fracPart (snd int) in
  let* exp := expPart (snd frac) in
  Some (fst sign ++ fst int ++ fst frac ++ fst exp, snd exp).

Definition stripPrefix (lit s : jsstring) : option jsstring :=
  if jsstring_eqb (List.firstn (List.length lit) s) lit
  then Some (List.skipn (List.length lit) s) else None.

(** What follows the unit [c] when [c] is the first unit after white
    space. *)
Definition nextIs (c : N) (s : jsstring) : option jsstring :=
  match skipWs s with
  | x :: r => if x =? c then Some r else None
  | [] => None
  end.

(** Recursive descent.  Each call consumes a unit before it calls again, so
    fuel above the length of the text is never used up
    ([parseValue_fuel] below). *)
Fixpoint parseValue (fuel : nat) (s : jsstring) {struct fuel}
  : option (JSValue * jsstring) :=
  match fuel with
  | O => None
  | S f =>
      match skipWs s with
      | [] => None
      | c :: rest =>
          if c =? 123 then                                   (* { *)
            match nextIs 125 rest with
            | Some r => Some (JObject [], r)
            | None => parseMembers f rest []
            end
          else if c =? 91 then                               (* [ *)
            match nextIs 93 rest with
            | Some r => Some (JArray [], r)
            | None => parseElements f rest []
            end
          else if c =? 34 then
            let* sr := parseStringBody rest in
            Some (JString (fst sr), snd sr)
          else if c =? 116 then
            let* r := stripPrefix (js "true") (c :: rest) in
            Some (JBool true, r)
          else if c =? 102 then
            let* r := stripPrefix (js "false") (c :: rest) in
            Some (JBool false, r)
          else if c =? 110 then
            let* r := stripPrefix (js "null") (c :: rest) in
            Some (JNull, r)
          else if (c =? 45) || isDigit c then
            let* tr := parseNumberToken (c :: rest) in
            Some (JNumber (StringToNumber (fst tr)), snd tr)
          else None
      end
  end

(** The elements after [[] or after a comma; [acc] holds those read so far,
    last first. *)
with parseElements (fuel : nat) (s : jsstring) (acc : list JSValue)
    {struct fuel} : option (JSValue * jsstring) :=
  match fuel with
  | O => None
  | S f =>
      let* vr := parseValue f s in
      match skipWs (snd vr) with
      | c :: r =>
          if c =? 44 then parseElements f r (fst vr :: acc)
          else if c =? 93 then Some (JArray (List.rev (fst vr :: acc)), r)
          else None
      | [] => None
      end
  end

(** The members after [{] or after a comma; a repeated key keeps its place
    and takes the later value. *)
with parseMembers (fuel : nat) (s : jsstring) (acc : properties)
    {struct fuel} : option (JSValue * jsstring) :=
  match fuel with
  | O => None
  | S f =>
      let* r0 := nextIs 34 s in
      let* kr := parseStringBody r0 in
      let* r1 := nextIs 58 (snd kr) in
      let* vr := parseValue f r1 in
      let acc' := defineProperty acc (fst kr) (fst vr) in
      match skipWs (snd vr) with
      | c :: r2 =>
          if c =? 44 then parseMembers f r2 acc'
          else if c =? 125 then Some (JObject acc', r2)
          else None
      | [] => None
      end
  end.

(** [JSON.parse(text)]; [None] is the [SyntaxError]. *)
Definition JSON_parse (text : jsstring) : option JSValue :=
  let* vr := parseValue (2 + List.length text) text in
  match skipWs (snd vr) with
  | [] => Some (fst vr)
  | _ => None
  end.

(** *** [JSON.stringify(value, null, 0)]

    No indentation and no [toJSON]: a parsed value holds no function. *)

Definition hex4 (c : N) : jsstring :=
  [digitChar ((c / 4096) mod 16); digitChar ((c / 256) mod 16);
   digitChar ((c / 16) mod 16); digitChar (c mod 16)].

Definition unicodeEscape (c : N) : jsstring := 92 :: 117 :: hex4 c.

(** [QuoteJSONString] without the outer quotes: the short escapes, [\u00xx]
    for the other control characters and [\udxxx] for a lone surrogate. *)
Fixpoint quoteUnits (s : jsstring) : jsstring :=
  match s with
  | [] => []
  | c :: rest =>
      if c =? 8 then 92 :: 98 :: quoteUnits rest
      else if c =? 9 then 92 :: 116 :: quoteUnits rest
      else if c =? 10 then 92 :: 110 :: quoteUnits rest
      else if c =? 12 then 92 :: 102 :: quoteUnits rest
      else if c =? 13 then 92 :: 114 :: quoteUnits rest
      else if c =? 34 then 92 :: 34 :: quoteUnits rest
      else if c =? 92 then 92 :: 92 :: quoteUnits rest
      else if c <? 32 then unicodeEscape c ++ quoteUnits rest
      else if isHighSurrogate c then
        match rest with
        | d :: rest' =>
            if isLowSurrogate d then c :: d :: quoteUnits rest'
            else unicodeEscape c ++ quoteUnits rest
        | [] => unicodeEscape c
        end
      else if isLowSurrogate c then unicodeEscape c ++ quoteUnits rest
      else c :: quoteUnits rest
  end.

Definition QuoteJSONString (s : jsstring) : jsstring :=
  34 :: quoteUnits s ++ [34].

Fixpoint joinComma (parts : list jsstring) : jsstring :=
  match parts with
  | [] => []
  | [x] => x
  | x :: rest => x ++ 44 :: joinComma rest
  end.

Fixpoint JSON_stringify (v : JSValue) : jsstring :=
  match v with
  | JNull => js "null"
  | JBool true => js "true"
  | JBool false => js "false"
  | JNumber n => Number_toJSON n
  | JString s => QuoteJSONString s
  | JArray elements =>
      91 :: joinComma (List.map JSON_stringify elements) ++ [93]
  | JObject props =>
      123 :: joinComma
               (List.map (fun kv => QuoteJSONString (fst kv) ++
                                    58 :: JSON_stringify (snd kv)) props)
          ++ [125]
  end.

(** The levels of arrays and objects in a value. *)
Fixpoint nesting (v : JSValue) : nat :=
  match v with
  | JNull | JBool _ | JNumber _ | JString _ => O
  | JArray elements => S (List.list_max (List.map nesting elements))
  | JObject props =>
      S (List.list_max (List.map (fun kv => nesting (snd kv)) props))
  end.

(** [JSON.stringify(value, null, 0)] as a call: the text, or the
    [RangeError] of a value nested deeper than the stack holds. *)
Definition JSON_stringify_call (v : JSValue) : option jsstring :=
  if (nesting v <=? stackDepth)%nat then Some (JSON_stringify v) else None.

(** *** Object spread *)

Definition decimalString (n : N) : jsstring := Number_toString n 10.

Definition indexed (values : list JSValue) : properties :=
  List.combine (List.map (fun i => decimalString (N.of_nat i))
                         (List.seq 0 (List.length values)))
               values.

(** [{ ...value }]: the own enumerable properties of the value, in key
    order.  [null], a boolean and a number have none; a string has its
    units and an array its elements, under their indices. *)
Definition spread (value : JSValue) : properties :=
  match value with
  | JNull | JBool _ | JNumber _ => []
  | JString s => indexed (List.map (fun c => JString [c]) s)
  | JArray elements => indexed elements
  | JObject props => props
  end.

(** ** The manifest hasher *)

Definition docker_config : jsstring := js "docker_config".

(** Lines 89 to 95: the parsed text, or the text under [content]. *)
Definition manifestDict (composeContent : jsstring) : JSValue :=
  match JSON_parse composeContent with
  | Some v => v
  | None => JObject [(js "content", JString composeContent)]
  end.

(** Line 98: [{ ...manifestDict, docker_config: {} }]. *)
Definition adjustedManifest (composeContent : jsstring) : JSValue :=
  JObject (defineProperty (spread (manifestDict composeContent))
                          docker_config (JObject [])).

Definition getComposeHash (composeContent : jsstring) : jsstring :=
  if String_not (String_trim composeContent) then []
  else try_catch_empty (
    let* manifestString :=
      JSON_stringify_call (adjustedManifest composeContent) in
    let data := TextEncoder_encode manifestString in
    let hash := uint8ArrayToHex (sha256 data) in
    Some hash).

(** ** The orchestrator *)

Record Inputs := {
  in_composeContent : jsstring;
  in_rootFsHash : jsstring;
  in_appId : jsstring;
  in_caCertHash : jsstring;
  in_instanceId : jsstring
}.

Record Digests := {
  d_rootFsHash : jsstring;
  d_appId : jsstring;
  d_composeHash : jsstring;
  d_caCertHash : jsstring;
  d_instanceId : jsstring
}.

Record Calculated := {
  composeHash : jsstring;
  digests : Digests;
  rtmr3 : jsstring
}.

(** [Object.values(digests)]: the five values in the order of the literal. *)
Definition Object_values (d : Digests) : list jsstring :=
  [d_rootFsHash d; d_appId d; d_composeHash d; d_caCertHash d;
   d_instanceId d].

(** [values.every((v) => v)] *)
Definition every_truthy (values : list jsstring) : bool :=
  List.forallb (fun v => negb (String_not v)) values.

(** What [calculateValues] hands to [setCalculated]. *)
Definition calculateValues (inputs : Inputs) : Calculated :=
  let composeHash := getComposeHash (in_composeContent inputs) in
  let digests :=
    {| d_rootFsHash := calcDigest (js "rootfs-hash") (in_rootFsHash inputs);
       d_appId := calcDigest (js "app-id") (in_appId inputs);
       d_composeHash := calcDigest (js "compose-hash") composeHash;
       d_caCertHash := calcDigest (js "ca-cert-hash") (in_caCertHash inputs);
       d_instanceId := calcDigest (js "instance-id") (in_instanceId inputs) |} in
  let digestValues := Object_values digests in
  let rtmr3 :=
    if every_truthy digestValues then rtmrReplay digestValues else [] in
  {| composeHash := composeHash; digests := digests; rtmr3 := rtmr3 |}.

(** ** The component

    [RTMR3Calculator] keeps two pieces of state, [inputs] and [calculated].
    Every change of an input renders again; the effect of the render before
    is cleaned up, which clears its [isMounted], and a new run of
    [calculateValues] starts on the inputs of the new render.  A run ends
    at line 206, at any later time, and writes [calculated] only when its
    [isMounted] still holds. *)

(** Lines 162 to 180: the two initial states. *)
Definition initialInputs : Inputs :=
  {| in_composeContent := []; in_rootFsHash := []; in_appId := [];
     in_caCertHash := []; in_instanceId := [] |}.

Definition initialCalculated : Calculated :=
  {| composeHash := [];
     digests := {| d_rootFsHash := []; d_appId := []; d_composeHash := [];
                   d_caCertHash := []; d_instanceId := [] |};
     rtmr3 := [] |}.

(** The four keys of the input fields of line 239. *)
Inductive InputKey : Type :=
| K_rootFsHash
| K_appId
| K_caCertHash
| K_instanceId.

(** Lines 233 to 236: [{ ...prev, composeContent: value }]. *)
Definition setComposeContent (prev : Inputs) (value : jsstring) : Inputs :=
  {| in_composeContent := value;
     in_rootFsHash := in_rootFsHash prev; in_appId := in_appId prev;
     in_caCertHash := in_caCertHash prev;
     in_instanceId := in_instanceId prev |}.

(** Line 247: [{ ...prev, [field]: value }]. *)
Definition setInput (prev : Inputs) (field : InputKey) (value : jsstring)
  : Inputs :=
  match field with
  | K_rootFsHash =>
      {| in_composeContent := in_composeContent prev;
         in_rootFsHash := value; in_appId := in_appId prev;
         in_caCertHash := in_caCertHash prev;
         in_instanceId := in_instanceId prev |}
  | K_appId =>
      {| in_composeContent := in_composeContent prev;
         in_rootFsHash := in_rootFsHash prev; in_appId := value;
         in_caCertHash := in_caCertHash prev;
         in_instanceId := in_instanceId prev |}
  | K_caCertHash =>
      {| in_composeContent := in_composeContent prev;
         in_rootFsHash := in_rootFsHash prev; in_appId := in_appId prev;
         in_caCertHash := value;
         in_instanceId := in_instanceId prev |}
  | K_instanceId =>
      {| in_composeContent := in_composeContent prev;
         in_rootFsHash := in_rootFsHash prev; in_appId := in_appId prev;
         in_caCertHash := in_caCertHash prev;
         in_instanceId := value |}
  end.

(** A run of [calculateValues] that has not reached line 206: the inputs
    its closure holds and the [isMounted] of its effect. *)
Record Run := {
  closureInputs : Inputs;
  isMounted : bool
}.

Record Component := {
  st_inputs : Inputs;
  st_calculated : Calculated;
  st_runs : list Run
}.

Inductive Event : Type :=
| ChangeComposeContent (value : jsstring)
| ChangeInput (field : InputKey) (value : jsstring)
| RunEnds (index : nat).

(** The cleanup of line 215 on every effect of the render before. *)
Definition cleanup (runs : list Run) : list Run :=
  List.map (fun r => {| closureInputs := closureInputs r;
                        isMounted := false |}) runs.

(** A render on new inputs: lines 182 to 218. *)
Definition render (c : Component) (inputs : Inputs) : Component :=
  {| st_inputs := inputs;
     st_calculated := st_calculated c;
     st_runs := cleanup (st_runs c) ++
                [{| closureInputs := inputs; isMounted := true |}] |}.

Fixpoint removeNth {A : Type} (n : nat) (l : list A) : list A :=
  match n, l with
  | _, [] => []
  | O, _ :: rest => rest
  | S k, x :: rest => x :: removeNth k rest
  end.

(** The first render, with its effect started. *)
Definition mounted : Component :=
  {| st_inputs := initialInputs;
     st_calculated := initialCalculated;
     st_runs := [{| closureInputs := initialInputs; isMounted := true |}] |}.

Definition step (c : Component) (e : Event) : Component :=
  match e with
  | ChangeComposeContent value =>
      render c (setComposeContent (st_inputs c) value)
  | ChangeInput field value => render c (setInput (st_inputs c) field value)
  | RunEnds index =>
      match List.nth_error (st_runs c) index with
      | Some run =>
          {| st_inputs := st_inputs c;
             st_calculated :=
               if isMounted run then calculateValues (closureInputs run)
               else st_calculated c;
             st_runs := removeNth index (st_runs c) |}
      | None => c
      end
  end.

Definition run (events : list Event) : Component :=
  List.fold_left step events mounted.

(** Lines 122 to 131: the text of a [FlowBox], [value || "..."], under its
    title. *)
Definition FlowBox (title value : jsstring) : jsstring * jsstring :=
  (title, if String_not value then js "..." else value).

(** Lines 256 to 291: the eleven boxes, in the order of the page. *)
Definition boxes (c : Component) : list (jsstring * jsstring) :=
  let inputs := st_inputs c in
  let calculated := st_calculated c in
  [FlowBox (js "Compose Hash") (composeHash calculated);
   FlowBox (js "Compose Hash Digest") (d_composeHash (digests calculated));
   FlowBox (js "Root FS Hash") (in_rootFsHash inputs);
   FlowBox (js "Root FS Hash Digest") (d_rootFsHash (digests calculated));
   FlowBox (js "App ID") (in_appId inputs);
   FlowBox (js "App ID Digest") (d_appId (digests calculated));
   FlowBox (js "CA Cert Hash") (in_caCertHash inputs);
   FlowBox (js "CA Cert Hash Digest") (d_caCertHash (digests calculated));
   FlowBox (js "Instance ID") (in_instanceId inputs);
   FlowBox (js "Instance ID Digest") (d_instanceId (digests calculated));
   FlowBox (js "Final RTMR3") (rtmr3 calculated)].

(** What holds of the component after every event: a run that may write
    holds the current inputs; what is shown is the result for the current
    inputs unless such a run is still under way; and it is always the
    result for some inputs. *)
Definition settled_or_running (c : Component) : Prop :=
  Forall (fun r => isMounted r = true -> closureInputs r = st_inputs c)
         (st_runs c) /\
  (st_calculated c = calculateValues (st_inputs c) \/
   Exists (fun r => isMounted r = true) (st_runs c)) /\
  exists inputs, st_calculated c = calculateValues inputs.

(** *** Vocabulary for the manifest and the orchestrator *)

(** The hex of the SHA-256 of a document as it is written out. *)
Definition manifestDigest (document : JSValue) : jsstring :=
  uint8ArrayToHex (sha256 (TextEncoder_encode (JSON_stringify document))).

(** The values that are neither strings nor containers. *)
Definition isPrimitive (v : JSValue) : bool :=
  match v with
  | JNull | JBool _ | JNumber _ => true
  | JString _ | JArray _ | JObject _ => false
  end.

(** A manifest has a hash when it is not blank and the document made of it
    is not nested deeper than [JSON.stringify] can follow. *)
Definition hashable (composeContent : jsstring) : bool :=
  negb (String_not (String_trim composeContent)) &&
  (nesting (adjustedManifest composeContent) <=? stackDepth)%nat.

(** An input is present when it is not empty; the manifest, when it has a
    hash. *)
Definition allPresent (inputs : Inputs) : bool :=
  hashable (in_composeContent inputs) &&
  negb (String_not (in_rootFsHash inputs)) &&
  negb (String_not (in_appId inputs)) &&
  negb (String_not (in_caCertHash inputs)) &&
  negb (String_not (in_instanceId inputs)).

End Manifest.

(* The number type of a value is read off the type expected of it. *)
Arguments JNumber {num} & n.

(** ** Number tokens written as integers

    An instance of the interface, used where a manifest is evaluated.  A
    token made of digits with an optional minus sign and of magnitude at
    most [2^53] denotes a double exactly, and [ToString] prints its decimal
    digits (minus zero as [0]).  Any other token is kept as it is written:
    rounding to a double and printing one in the shortest form are outside
    this instance. *)
Inductive literalNumber : Type :=
| SafeInteger (z : Z)
| OtherNumber (token : jsstring).

Definition readLiteral (token : jsstring) : literalNumber :=
  let '(neg, ds) :=
    match token with
    | 45 :: r => (true, r)
    | _ => (false, token)
    end in
  if (List.forallb isDigit ds && (decimalValue ds <=? 2 ^ 53))%bool
  then SafeInteger (if neg then (- Z.of_N (decimalValue ds))%Z
                    else Z.of_N (decimalValue ds))
  else OtherNumber token.

Definition printLiteral (n : literalNumber) : jsstring :=
  match n with
  | SafeInteger z =>
      if (z <? 0)%Z then 45 :: Number_toString (Z.to_N (- z)) 10
      else Number_toString (Z.to_N z) 10
  | OtherNumber token => token
  end.

#[export] Instance literalNumbers : NumberOps := {|
  JSNumber := literalNumber;
  StringToNumber := readLiteral;
  Number_toJSON := printLiteral
|}.

(** An engine whose stack holds a thousand levels, used where a manifest is
    evaluated. *)
#[export] Instance thousandLevels : Engine := {|
  stackDepth := 1000;
  stackDepth_min := eq_refl
|}.

(** The value of an integer token. *)
Definition JInteger (z : Z) : @JSValue literalNumbers :=
  JNumber (SafeInteger z).

(** A literal in which the apostrophe stands for the quotation mark. *)
Definition jsq (s : string) : jsstring :=
  List.map (fun c => if c =? 39 then 34 else c) (js s).

Definition zeros48hex : jsstring := String_repeat (js "00") 48.

(** * The vocabulary of the specification *)

(** ** The hex codec *)

(** The encoding in the words of the specification: two lowercase
    hexadecimal characters for each byte, high digit first. *)
Definition twoHex (b : byte) : jsstring :=
  [digitChar (Byte.to_N b / 16); digitChar (Byte.to_N b mod 16)].

Definition encodeHex (bs : Uint8Array) : jsstring :=
  List.concat (List.map twoHex bs).

Definition isLowerHex (c : N) : bool :=
  isDigit c || ((97 <=? c) && (c <=? 102)).

(** The value of a hexadecimal character of either case. *)
Definition hexValue (c : N) : N :=
  if isDigit c then c - 48 else if 97 <=? c then c - 87 else c - 55.

Definition pairByte (p : jsstring) : byte :=
  match p with
  | [a; b] => byteOf (16 * hexValue a + hexValue b)
  | _ => x00
  end.

Definition toUpperAscii (c : N) : N :=
  if (97 <=? c) && (c <=? 122) then c - 32 else c.

Definition toLowerAscii (c : N) : N :=
  if (65 <=? c) && (c <=? 90) then c + 32 else c.

(** A choice of valid pairs in a text: pairs of adjacent hexadecimal
    characters that do not overlap, in the order of the text; every other
    character is passed over. *)
Inductive PairSelection : jsstring -> list jsstring -> Prop :=
| sel_end : PairSelection [] []
| sel_skip c s ps : PairSelection s ps -> PairSelection (c :: s) ps
| sel_take a b s ps :
    hexClass a = true -> hexClass b = true ->
    PairSelection s ps -> PairSelection (a :: b :: s) ([a; b] :: ps).

(** ** The event digest *)

(** The tag 0x08000001, least significant byte first. *)
Definition tagLittleEndian : Uint8Array := [x01; x00; x00; x08].

(** The ASCII colon. *)
Definition colon : byte := x3a.

(** The message that the specification has digested for an event. *)
Definition eventMessage (eventName eventValue : jsstring) : Uint8Array :=
  tagLittleEndian ++ [colon] ++ TextEncoder_encode eventName ++ [colon] ++
  hexToUint8Array eventValue.

(** The five event messages of the orchestrator, in the order of the
    digests. *)
Definition eventMessages {num : NumberOps} {engine : Engine}
  (inputs : Inputs)
  : list Uint8Array :=
  [eventMessage (js "rootfs-hash") (in_rootFsHash inputs);
   eventMessage (js "app-id") (in_appId inputs);
   eventMessage (js "compose-hash")
     (getComposeHash (in_composeContent inputs));
   eventMessage (js "ca-cert-hash") (in_caCertHash inputs);
   eventMessage (js "instance-id") (in_instanceId inputs)].

(** ** The register replay *)

(** The register at reset. *)
Definition zeroRegister : Uint8Array := List.repeat x00 48.

(** An event shorter than 48 bytes is filled with zero bytes on the right
    up to 48. *)
Definition padEvent (event : Uint8Array) : Uint8Array :=
  if (List.length event <? 48)%nat
  then event ++ List.repeat x00 (48 - List.length event)
  else event.

(** One extension: the digest of the register followed by the event. *)
Definition extend (register : Uint8Array) (digest : jsstring) : Uint8Array :=
  sha384 (register ++ padEvent (hexToUint8Array digest)).

(** The buffers that the loop of [rtmrReplay] digests, in order. *)
Fixpoint replayBuffers (mr : Uint8Array) (history : list jsstring)
  : list Uint8Array :=
  match history with
  | [] => []
  | content :: rest =>
      match replayCombined mr content with
      | Some combined => combined :: replayBuffers (sha384 combined) rest
      | None => []
      end
  end.

(** 49 bytes in hex. *)
Definition overlongEntry : jsstring := String_repeat (js "ab") 49.

(** ** Manifests and inputs *)


(** An array nested 5000 deep, deeper than the stack of [thousandLevels]
    holds. *)
Definition deepManifest : jsstring :=
  String_repeat (js "[") 5000 ++ String_repeat (js "]") 5000.

(** The empty array inside [levels] arrays. *)
Fixpoint nestedArray (levels : nat) : @JSValue literalNumbers :=
  match levels with
  | O => JArray []
  | S k => JArray [nestedArray k]
  end.

(** Two manifests with the same fields but for [docker_config], which the
    first has as its first key and the second lacks. *)
Definition manifestConfigFirst : jsstring :=
  jsq "{'docker_config':{'x':1},'a':'b'}".

Definition manifestNoConfig : jsstring := jsq "{'a':'b'}".

(** The fields of a document other than [k], in their order. *)
Definition removeKey (k : jsstring) (props : properties) : properties :=
  List.filter (fun kv => negb (jsstring_eqb (fst kv) k)) props.

(** The scenario of the specification, and the same with a root file system
    hash that is no hexadecimal at all. *)
Definition scenarioInputs : Inputs :=
  {| in_composeContent := jsq "{'a':1}";
     in_rootFsHash := zeros48hex; in_appId := zeros48hex;
     in_caCertHash := zeros48hex; in_instanceId := zeros48hex |}.

Definition invalidHexInputs : Inputs :=
  {| in_composeContent := jsq "{'a':1}";
     in_rootFsHash := js "zz"; in_appId := zeros48hex;
     in_caCertHash := zeros48hex; in_instanceId := zeros48hex |}.

(** A well-formed hex string: hexadecimal characters, an even number of
    them. *)
Definition isHexString (s : jsstring) : bool :=
  List.forallb hexClass s && Nat.even (List.length s).

(** * Properties *)

(** ** Known answers *)

Example hexToUint8Array_mixed :
  hexToUint8Array (js "0g12 aBc") = [x12; xab].
Proof. reflexivity. Qed.

Example uint8ArrayToHex_sample :
  uint8ArrayToHex [x00; x0a; xff; x10] = js "000aff10".
Proof. reflexivity. Qed.

(** The digests of the empty message, of ["abc"] and of a message of 200
    bytes, which takes several blocks. *)
Example sha256_empty :
  uint8ArrayToHex (SHA2.sha256 []) =
  js "e3b0c44298fc1c149afbf4c8996fb92427ae41e4649b934ca495991b7852b855".
Proof. vm_compute. reflexivity. Qed.

Example sha256_abc :
  uint8ArrayToHex (SHA2.sha256 (asciiBytes "abc")) =
  js "ba7816bf8f01cfea414140de5dae2223b00361a396177a9cb410ff61f20015ad".
Proof. vm_compute. reflexivity. Qed.

Example sha256_200 :
  uint8ArrayToHex
    (SHA2.sha256 (List.map (fun n => byteOf (N.of_nat n)) (List.seq 0 200))) =
  js "1901da1c9f699b48f6b2636e65cbf73abf99d0441ef67f5c540a42f7051dec6f".
Proof. vm_compute. reflexivity. Qed.

Example sha384_empty :
  uint8ArrayToHex (SHA2.sha384 []) =
  js ("38b060a751ac96384cd9327eb1b1e36a21fdb71114be0743" ++
      "4c0cc7bf63f6e1da274edebfe76f65fbd51ad2f14898b95b").
Proof. vm_compute. reflexivity. Qed.

Example sha384_abc :
  uint8ArrayToHex (SHA2.sha384 (asciiBytes "abc")) =
  js ("cb00753f45a35e8bb5a03d699ac65007272c32ab0eded163" ++
      "1a8b605a43ff5bed8086072ba1e7cc2358baeca134c825a7").
Proof. vm_compute. reflexivity. Qed.

Example sha384_200 :
  uint8ArrayToHex
    (SHA2.sha384 (List.map (fun n => byteOf (N.of_nat n)) (List.seq 0 200))) =
  js ("7ea4bb2534c67036f49de7beb5fe8a2478df04ff3fef40a9" ++
      "cd4923999a590e9912df1297217ce1a021aa2fb1013498b8").
Proof. vm_compute. reflexivity. Qed.

Example TextEncoder_encode_sample :
  TextEncoder_encode [0x61; 0xE9; 0x20AC; 0xD83D; 0xDE00; 0xD800] =
  [x61; xc3; xa9; xe2; x82; xac; xf0; x9f; x98; x80; xef; xbf; xbd].
Proof. reflexivity. Qed.

Example JSON_parse_sample :
  JSON_parse (jsq " {'b': [1, {'0': null}], '2':true , 'b' : -0, '1':'x\n' } ") =
  Some (JObject [(js "1", JString [120; 10]); (js "2", JBool true);
                 (js "b", JNumber (SafeInteger 0))]).
Proof. reflexivity. Qed.

Example JSON_stringify_sample :
  option_map JSON_stringify
    (JSON_parse (jsq "[ {'k' : [ ], 'a\u0041' :{}}, 'x\\y', -7 ,false]")) =
  Some (jsq "[{'k':[],'aA':{}},'x\\y',-7,false]").
Proof. vm_compute. reflexivity. Qed.

Example JSON_parse_rejects :
  List.forallb
    (fun text => match JSON_parse text with None => true | Some _ => false end)
    [jsq "{'a':1,}"; jsq "[1,]"; jsq "01"; jsq "{a:1}"; jsq "1 2"; jsq "'a";
     jsq "tru"; jsq "-"; jsq "1."; jsq "1e"; jsq ""; jsq "services:"] = true.
Proof. vm_compute. reflexivity. Qed.

Example getComposeHash_sample :
  getComposeHash
    (jsq "{ 'b' : -12, '1': [true, null, 'q\'\n\u0001" ++ [233] ++
     jsq "'] , 'docker_config': {'x': [1,2]} }") =
  js "be83eb3b7387fc0cbfe5fab02da787aef122e303d76843070a19e08e4aa86ac2".
Proof. vm_compute. reflexivity. Qed.

Example getComposeHash_blank :
  getComposeHash [32; 10; 160; 9] = [].
Proof. reflexivity. Qed.

Example calcDigest_sample :
  calcDigest (js "app-id") (js "0g12 aBc") =
  js ("ed510ba43fc4e171d134dc77055264ab1645934ba4a89f67" ++
      "97df1d46b50f05abb6965354ded267c41f9cdfdf51f5ffd8").
Proof. vm_compute. reflexivity. Qed.

(** The end-to-end scenario: four inputs of 48 zero bytes and the manifest
    [{"a":1}]. *)
Example calculateValues_scenario :
  rtmr3 (calculateValues
           {| in_composeContent := jsq "{'a':1}";
              in_rootFsHash := zeros48hex; in_appId := zeros48hex;
              in_caCertHash := zeros48hex; in_instanceId := zeros48hex |}) =
  js ("8d92e6b37fc64cccd58b177712d3fb3e3288abf28352894b" ++
      "8345b8ea3db70e63f6969f37e38a376818ca96e00c42f07d").
Proof. vm_compute. reflexivity. Qed.

(** ** The hex codec *)

Lemma byte_toString_padStart (b : byte) :
  String_padStart (Number_toString (Byte.to_N b) 16) 2 48 = twoHex b.
Proof. destruct b; reflexivity. Qed.

Lemma twoHex_lower (b : byte) :
  Forall (fun c => isLowerHex c = true) (twoHex b).
Proof. destruct b; repeat constructor. Qed.

Lemma twoHex_parse (b : byte) : ToUint8 (parseInt (twoHex b) 16) = b.
Proof. destruct b; reflexivity. Qed.

Lemma isLowerHex_hexClass (c : N) : isLowerHex c = true -> hexClass c = true.
Proof.
  unfold isLowerHex, hexClass, isAtoF.
  destruct (isDigit c); simpl; [reflexivity|].
  intros ->. apply orb_true_r.
Qed.

Lemma uint8ArrayToHex_encodeHex (bs : Uint8Array) :
  uint8ArrayToHex bs = encodeHex bs.
Proof.
  unfold uint8ArrayToHex, encodeHex, Array_join_empty.
  f_equal. apply List.map_ext. exact byte_toString_padStart.
Qed.

Lemma encodeHex_cons (b : byte) (bs : Uint8Array) :
  encodeHex (b :: bs) =
  digitChar (Byte.to_N b / 16) :: digitChar (Byte.to_N b mod 16)
    :: encodeHex bs.
Proof. reflexivity. Qed.

Lemma encodeHex_length (bs : Uint8Array) :
  List.length (encodeHex bs) = (2 * List.length bs)%nat.
Proof.
  induction bs as [|b bs IH]; [reflexivity|].
  rewrite encodeHex_cons. simpl List.length. rewrite IH. lia.
Qed.

Lemma encodeHex_lower (bs : Uint8Array) :
  Forall (fun c => isLowerHex c = true) (encodeHex bs).
Proof.
  induction bs as [|b bs IH]; [constructor|].
  change (encodeHex (b :: bs)) with (twoHex b ++ encodeHex bs).
  apply Forall_app. split; [apply twoHex_lower | exact IH].
Qed.

Lemma matchAll_take (a b : N) (rest : jsstring) :
  hexClass a = true -> hexClass b = true ->
  matchAll (a :: b :: rest) = [a; b] :: matchAll rest.
Proof. intros Ha Hb. simpl. rewrite Ha, Hb. reflexivity. Qed.

Lemma matchAll_skip (a b : N) (rest : jsstring) :
  hexClass a && hexClass b = false ->
  matchAll (a :: b :: rest) = matchAll (b :: rest).
Proof. intros H. simpl. rewrite H. reflexivity. Qed.

(** The [|| []] of the source gives back the list of matches. *)
Lemma hexToUint8Array_matchAll (hex : jsstring) :
  hexToUint8Array hex =
  List.map (fun s => ToUint8 (parseInt s 16)) (matchAll hex).
Proof.
  unfold hexToUint8Array, String_match_hexpairs, Uint8Array_from.
  rewrite List.map_map. destruct (matchAll hex); reflexivity.
Qed.

Lemma matchAll_encodeHex (bs : Uint8Array) :
  matchAll (encodeHex bs) = List.map twoHex bs.
Proof.
  induction bs as [|b bs IH]; [reflexivity|].
  rewrite encodeHex_cons.
  pose proof (twoHex_lower b) as Hl. unfold twoHex in Hl.
  inversion Hl as [|? ? H1 Hl']; subst. inversion Hl' as [|? ? H2 _]; subst.
  rewrite matchAll_take by (apply isLowerHex_hexClass; assumption).
  rewrite IH. reflexivity.
Qed.

Lemma hexToUint8Array_encodeHex (bs : Uint8Array) :
  hexToUint8Array (encodeHex bs) = bs.
Proof.
  rewrite hexToUint8Array_matchAll, matchAll_encodeHex, List.map_map.
  rewrite <- (List.map_id bs) at 2. apply List.map_ext. exact twoHex_parse.
Qed.

(** C7.  Decoding the encoding of any byte sequence gives the sequence
    back, and the encoder writes exactly two lowercase hexadecimal
    characters per byte, with nothing between them. *)
Theorem hexToUint8Array_uint8ArrayToHex (b : Uint8Array) :
  hexToUint8Array (uint8ArrayToHex b) = b /\
  uint8ArrayToHex b = List.concat (List.map twoHex b) /\
  List.length (uint8ArrayToHex b) = (2 * List.length b)%nat /\
  Forall (fun c => isLowerHex c = true) (uint8ArrayToHex b).
Proof.
  rewrite uint8ArrayToHex_encodeHex. repeat split.
  - apply hexToUint8Array_encodeHex.
  - apply encodeHex_length.
  - apply encodeHex_lower.
Qed.

Example roundtrip_empty : hexToUint8Array (uint8ArrayToHex []) = [].
Proof. reflexivity. Qed.

Example roundtrip_zero_register :
  uint8ArrayToHex (List.repeat x00 48) = INIT_MR /\
  hexToUint8Array INIT_MR = List.repeat x00 48.
Proof. split; reflexivity. Qed.

(** *** What the decoder keeps *)

(** Induction along the scan: it stops on at most one unit, takes a pair or
    moves on by one unit. *)
Lemma scan_ind (P : jsstring -> Prop) :
  P [] ->
  (forall a, P [a]) ->
  (forall a b rest,
      hexClass a = true -> hexClass b = true -> P rest -> P (a :: b :: rest)) ->
  (forall a b rest,
      hexClass a && hexClass b = false -> P (b :: rest) ->
      P (a :: b :: rest)) ->
  forall s, P s.
Proof.
  intros Hnil Hone Htake Hskip s.
  enough (H : P s /\ forall a, P (a :: s)) by apply H.
  induction s as [|b rest [IH1 IH2]].
  - split; [exact Hnil | exact Hone].
  - split; [apply IH2|].
    intros a. destruct (hexClass a && hexClass b) eqn:E.
    + apply andb_true_iff in E as [Ha Hb]. apply Htake; assumption.
    + apply Hskip; [exact E | apply IH2].
Qed.

Lemma hexClass_cases (c : N) :
  hexClass c = true ->
  In c [48; 49; 50; 51; 52; 53; 54; 55; 56; 57; 65; 66; 67; 68; 69; 70;
        97; 98; 99; 100; 101; 102].
Proof.
  unfold hexClass, isDigit, isAtoF.
  rewrite !orb_true_iff, !andb_true_iff, !N.leb_le. simpl In. lia.
Qed.

Ltac hex_cases H :=
  apply hexClass_cases in H; simpl In in H;
  repeat (destruct H as [<- | H]); try contradiction.

Lemma parseInt_pair (a b : N) :
  hexClass a = true -> hexClass b = true ->
  ToUint8 (parseInt [a; b] 16) = pairByte [a; b].
Proof. intros Ha Hb. hex_cases Ha; hex_cases Hb; reflexivity. Qed.

Lemma matchAll_pairs (s : jsstring) :
  Forall (fun p => exists a b,
              p = [a; b] /\ hexClass a = true /\ hexClass b = true)
         (matchAll s).
Proof.
  induction s as [| a | a b rest Ha Hb IH | a b rest E IH] using scan_ind.
  - constructor.
  - constructor.
  - rewrite matchAll_take by assumption. constructor; [|exact IH].
    exists a, b. auto.
  - rewrite matchAll_skip by assumption. exact IH.
Qed.

Lemma hexToUint8Array_pairByte (hex : jsstring) :
  hexToUint8Array hex = List.map pairByte (matchAll hex).
Proof.
  rewrite hexToUint8Array_matchAll.
  pose proof (matchAll_pairs hex) as H.
  induction H as [|p ps (a & b & -> & Ha & Hb) _ IH]; [reflexivity|].
  cbn [List.map]. rewrite IH. f_equal. apply parseInt_pair; assumption.
Qed.

Lemma matchAll_selection (s : jsstring) : PairSelection s (matchAll s).
Proof.
  induction s as [| a | a b rest Ha Hb IH | a b rest E IH] using scan_ind.
  - constructor.
  - apply sel_skip. constructor.
  - rewrite matchAll_take by assumption. apply sel_take; assumption.
  - rewrite matchAll_skip by assumption. apply sel_skip. exact IH.
Qed.

(** One more unit in front changes the number of matches by at most one,
    and never lowers it. *)
Lemma matchAll_cons_length (s : jsstring) (c : N) :
  (List.length (matchAll s) <= List.length (matchAll (c :: s)) <=
   S (List.length (matchAll s)))%nat.
Proof.
  revert c. induction s as [|b rest IH]; intros c.
  - simpl. lia.
  - destruct (hexClass c && hexClass b) eqn:E.
    + apply andb_true_iff in E as [Hc Hb].
      rewrite (matchAll_take c b) by assumption.
      cbn [List.length]. specialize (IH b). lia.
    + rewrite matchAll_skip by assumption. lia.
Qed.

Lemma matchAll_longest (s : jsstring) (ps : list jsstring) :
  PairSelection s ps ->
  (List.length ps <= List.length (matchAll s))%nat.
Proof.
  induction 1 as [| c s ps _ IH | a b s ps Ha Hb _ IH].
  - simpl. lia.
  - pose proof (matchAll_cons_length s c). lia.
  - rewrite matchAll_take by assumption. cbn [List.length]. lia.
Qed.

Ltac leb_cases :=
  repeat match goal with
         | |- context [?x <=? ?y] =>
             destruct (N.leb_spec x y); cbn [andb orb]
         end; try reflexivity; lia.

Lemma hexClass_toUpperAscii (c : N) : hexClass (toUpperAscii c) = hexClass c.
Proof.
  unfold toUpperAscii.
  destruct ((97 <=? c) && (c <=? 122)) eqn:E; [|reflexivity].
  apply andb_true_iff in E as [E1 E2]. apply N.leb_le in E1, E2.
  unfold hexClass, isDigit, isAtoF. leb_cases.
Qed.

Lemma hexClass_toLowerAscii (c : N) : hexClass (toLowerAscii c) = hexClass c.
Proof.
  unfold toLowerAscii.
  destruct ((65 <=? c) && (c <=? 90)) eqn:E; [|reflexivity].
  apply andb_true_iff in E as [E1 E2]. apply N.leb_le in E1, E2.
  unfold hexClass, isDigit, isAtoF. leb_cases.
Qed.

Lemma pairByte_fold (f : N -> N) :
  (forall c, hexClass (f c) = hexClass c) ->
  (forall c, hexClass c = true -> hexValue (f c) = hexValue c) ->
  forall s : jsstring,
    List.map pairByte (matchAll (List.map f s)) =
    List.map pairByte (matchAll s).
Proof.
  intros Hclass Hvalue s.
  induction s as [| a | a b rest Ha Hb IH | a b rest E IH] using scan_ind.
  - reflexivity.
  - reflexivity.
  - cbn [List.map].
    rewrite !matchAll_take by (rewrite ?Hclass; assumption).
    cbn [List.map]. rewrite IH. unfold pairByte.
    rewrite !Hvalue by assumption. reflexivity.
  - cbn [List.map] in *.
    rewrite !matchAll_skip by (rewrite ?Hclass; assumption).
    exact IH.
Qed.

Lemma hexValue_toUpperAscii (c : N) :
  hexClass c = true -> hexValue (toUpperAscii c) = hexValue c.
Proof. intros H. hex_cases H; reflexivity. Qed.

Lemma hexValue_toLowerAscii (c : N) :
  hexClass c = true -> hexValue (toLowerAscii c) = hexValue c.
Proof. intros H. hex_cases H; reflexivity. Qed.

(** C8.  On every string the decoder keeps a longest choice of valid pairs,
    found from left to right; a character of either case counts; whatever
    lies outside the chosen pairs contributes nothing; and a string without
    a valid pair decodes to the empty sequence. *)
Theorem hexToUint8Array_scan (hex : jsstring) :
  PairSelection hex (matchAll hex) /\
  (forall ps, PairSelection hex ps ->
              (List.length ps <= List.length (matchAll hex))%nat) /\
  hexToUint8Array hex = List.map pairByte (matchAll hex) /\
  hexToUint8Array (List.map toUpperAscii hex) = hexToUint8Array hex /\
  hexToUint8Array (List.map toLowerAscii hex) = hexToUint8Array hex /\
  ((forall ps, PairSelection hex ps -> ps = []) -> hexToUint8Array hex = []).
Proof.
  split; [apply matchAll_selection|].
  split; [apply matchAll_longest|].
  split; [apply hexToUint8Array_pairByte|].
  rewrite !hexToUint8Array_pairByte.
  split; [|split].
  - apply pairByte_fold;
      [exact hexClass_toUpperAscii | exact hexValue_toUpperAscii].
  - apply pairByte_fold;
      [exact hexClass_toLowerAscii | exact hexValue_toLowerAscii].
  - intros Hnone. rewrite (Hnone _ (matchAll_selection hex)). reflexivity.
Qed.

Example hexToUint8Array_lenient :
  hexToUint8Array (js "12zz3456") = [x12; x34; x56] /\
  hexToUint8Array (js "012") = [x01] /\
  hexToUint8Array (js "a b c") = [] /\
  hexToUint8Array (js "") = [].
Proof. repeat split. Qed.

(** ** Digests and typed-array writes *)

Lemma beBytes_length (n : nat) (x : N) : List.length (SHA2.beBytes n x) = n.
Proof. induction n as [|n IH]; simpl; [reflexivity | now rewrite IH]. Qed.

Lemma sha384_length (msg : Uint8Array) : List.length (sha384 msg) = 48%nat.
Proof.
  unfold sha384, SHA2.sha384.
  destruct (SHA2.hashState SHA2.sha512_params SHA2.IV384 msg)
    as [[[[[[[a b] c] d] e] f] g] h].
  rewrite !List.length_app, !beBytes_length. reflexivity.
Qed.

Lemma sha256_length (msg : Uint8Array) : List.length (sha256 msg) = 32%nat.
Proof.
  unfold sha256, SHA2.sha256.
  destruct (SHA2.hashState SHA2.sha256_params SHA2.IV256 msg)
    as [[[[[[[a b] c] d] e] f] g] h].
  rewrite !List.length_app, !beBytes_length. reflexivity.
Qed.

Lemma skipn_repeat_zero (k n : nat) :
  List.skipn k (List.repeat x00 n) = List.repeat x00 (n - k).
Proof.
  revert n. induction k as [|k IH]; intros n.
  - now rewrite Nat.sub_0_r.
  - destruct n as [|n]; [reflexivity | apply IH].
Qed.

(** Writing [source] right after the part [pre] already written leaves the
    rest of a zero-filled array untouched. *)
Lemma Uint8Array_set_next (pre source : Uint8Array) (total : nat) :
  (List.length pre + List.length source <= total)%nat ->
  Uint8Array_set (pre ++ List.repeat x00 (total - List.length pre)) source
                 (List.length pre) =
  Some ((pre ++ source) ++
        List.repeat x00 (total - List.length (pre ++ source))).
Proof.
  intros Hfit. unfold Uint8Array_set.
  rewrite List.length_app, List.repeat_length.
  replace (List.length pre + (total - List.length pre))%nat with total by lia.
  destruct (Nat.leb_spec (List.length pre + List.length source) total);
    [|lia].
  f_equal. rewrite <- List.app_assoc. f_equal.
  - rewrite List.firstn_app, List.firstn_all, Nat.sub_diag. simpl.
    apply List.app_nil_r.
  - f_equal. rewrite List.skipn_app.
    rewrite List.skipn_all2 by lia. simpl.
    replace (List.length pre + List.length source - List.length pre)%nat
      with (List.length source) by lia.
    rewrite skipn_repeat_zero, List.length_app. f_equal. lia.
Qed.

Lemma Uint8Array_set_first (source : Uint8Array) (total : nat) :
  (List.length source <= total)%nat ->
  Uint8Array_set (Uint8Array_new total) source 0 =
  Some (source ++ List.repeat x00 (total - List.length source)).
Proof.
  intros Hfit.
  pose proof (Uint8Array_set_next [] source total Hfit) as H.
  simpl in H. rewrite Nat.sub_0_r in H. exact H.
Qed.

(** Five writes, each at the end of the one before, fill the array with
    the five parts in order. *)
Lemma Uint8Array_set_five {B : Type} (k : Uint8Array -> option B)
    (a b c d e : Uint8Array) (total : nat) :
  total = (List.length a + List.length b + List.length c + List.length d +
           List.length e)%nat ->
  (let* c1 := Uint8Array_set (Uint8Array_new total) a 0 in
   let* c2 := Uint8Array_set c1 b (0 + List.length a) in
   let* c3 := Uint8Array_set c2 c (0 + List.length a + List.length b) in
   let* c4 :=
     Uint8Array_set c3 d (0 + List.length a + List.length b + List.length c) in
   let* c5 :=
     Uint8Array_set c4 e
       (0 + List.length a + List.length b + List.length c + List.length d) in
   k c5) =
  k (a ++ b ++ c ++ d ++ e).
Proof.
  intros Htotal.
  rewrite Uint8Array_set_first by lia. cbn [bind].
  replace (0 + List.length a)%nat with (List.length a) by lia.
  rewrite Uint8Array_set_next by lia. cbn [bind].
  replace (List.length a + List.length b)%nat with (List.length (a ++ b))
    by apply List.length_app.
  rewrite Uint8Array_set_next by (rewrite List.length_app; lia). cbn [bind].
  replace (List.length (a ++ b) + List.length c)%nat
    with (List.length ((a ++ b) ++ c)) by (rewrite !List.length_app; lia).
  rewrite Uint8Array_set_next by (rewrite !List.length_app; lia). cbn [bind].
  replace (List.length ((a ++ b) ++ c) + List.length d)%nat
    with (List.length (((a ++ b) ++ c) ++ d))
    by (rewrite !List.length_app; lia).
  rewrite Uint8Array_set_next by (rewrite !List.length_app; lia). cbn [bind].
  f_equal.
  replace (total - List.length ((((a ++ b) ++ c) ++ d) ++ e))%nat with 0%nat
    by (rewrite !List.length_app; lia).
  cbn [List.repeat]. rewrite List.app_nil_r, <- !List.app_assoc. reflexivity.
Qed.

(** ** The event digest *)

Lemma calcDigest_nonempty (eventName eventValue : jsstring) :
  eventValue <> [] ->
  calcDigest eventName eventValue =
  uint8ArrayToHex (sha384 (eventMessage eventName eventValue)).
Proof.
  intros Hne. unfold calcDigest.
  destruct eventValue as [|v0 vs]; [contradiction|].
  cbn [String_not].
  change (DataView_setUint32 (Uint8Array_new 4) 0 134217729 true)
    with (Some tagLittleEndian).
  change (TextEncoder_encode (js ":")) with [colon].
  cbn [bind]. unfold try_catch_empty, eventMessage.
  set (name := TextEncoder_encode eventName).
  set (value := hexToUint8Array (v0 :: vs)).
  rewrite (Uint8Array_set_five
             (fun combined => Some (uint8ArrayToHex (sha384 combined)))
             tagLittleEndian [colon] name [colon] value).
  - reflexivity.
  - cbn [List.length]. lia.
Qed.

(** C1.  For a non-empty event value the digest is the lowercase hex of the
    SHA-384 of: the tag 0x08000001 least significant byte first, a colon,
    the UTF-8 bytes of the name, a colon, and the bytes decoded from the
    value, as many as they are: nothing pads them to 48. *)
Theorem calcDigest_layout (eventName eventValue : jsstring) :
  eventValue <> [] ->
  calcDigest eventName eventValue =
  encodeHex (sha384 ([x01; x00; x00; x08] ++ [x3a] ++
                     TextEncoder_encode eventName ++ [x3a] ++
                     hexToUint8Array eventValue)) /\
  List.length ([x01; x00; x00; x08] ++ [x3a] ++
               TextEncoder_encode eventName ++ [x3a] ++
               hexToUint8Array eventValue) =
  (6 + List.length (TextEncoder_encode eventName) +
   List.length (hexToUint8Array eventValue))%nat.
Proof.
  intros Hne. split.
  - rewrite calcDigest_nonempty by assumption.
    apply uint8ArrayToHex_encodeHex.
  - rewrite !List.length_app. cbn [List.length]. lia.
Qed.

Lemma calcDigest_layout_witness :
  calcDigest (js "app-id") (js "0a") =
  encodeHex (sha384 ([x01; x00; x00; x08] ++ [x3a] ++
                     TextEncoder_encode (js "app-id") ++ [x3a] ++
                     hexToUint8Array (js "0a"))).
Proof.
  apply (calcDigest_layout (js "app-id") (js "0a")). discriminate.
Defined.

(** The five event names are ASCII: their UTF-8 bytes are their
    characters. *)
Example event_names_utf8 :
  List.map TextEncoder_encode
    [js "rootfs-hash"; js "app-id"; js "compose-hash"; js "ca-cert-hash";
     js "instance-id"] =
  List.map asciiBytes
    ["rootfs-hash"; "app-id"; "compose-hash"; "ca-cert-hash";
     "instance-id"]%string.
Proof. reflexivity. Qed.

(** C9.  An empty event value gives the empty string; any other value gives
    96 lowercase hexadecimal characters. *)
Theorem calcDigest_length (eventName eventValue : jsstring) :
  (eventValue = [] -> calcDigest eventName eventValue = []) /\
  (eventValue <> [] ->
   List.length (calcDigest eventName eventValue) = 96%nat /\
   Forall (fun c => isLowerHex c = true) (calcDigest eventName eventValue)).
Proof.
  split.
  - intros ->. reflexivity.
  - intros Hne. rewrite calcDigest_nonempty by assumption.
    rewrite uint8ArrayToHex_encodeHex. split.
    + rewrite encodeHex_length, sha384_length. reflexivity.
    + apply encodeHex_lower.
Qed.

Lemma calcDigest_length_witness :
  calcDigest (js "rootfs-hash") [] = [] /\
  List.length (calcDigest (js "rootfs-hash") (js "zz")) = 96%nat.
Proof.
  split.
  - apply (calcDigest_length (js "rootfs-hash") []). reflexivity.
  - apply (calcDigest_length (js "rootfs-hash") (js "zz")). discriminate.
Defined.

(** ** The register replay *)

Lemma padEvent_length (event : Uint8Array) :
  List.length (padEvent event) = Nat.max 48 (List.length event).
Proof.
  unfold padEvent. destruct (Nat.ltb_spec (List.length event) 48).
  - rewrite List.length_app, List.repeat_length. lia.
  - lia.
Qed.

(** The loop body never throws: both writes fit the array made for them. *)
Lemma replayCombined_buffer (mr : Uint8Array) (content : jsstring) :
  replayCombined mr content =
  Some (mr ++ padEvent (hexToUint8Array content)).
Proof.
  unfold replayCombined, padEvent.
  set (event := hexToUint8Array content).
  assert (Hwrite : forall ev : Uint8Array,
             (let* combined :=
                Uint8Array_set
                  (Uint8Array_new (List.length mr + List.length ev)) mr 0 in
              Uint8Array_set combined ev (List.length mr)) =
             Some (mr ++ ev)).
  { intros ev. rewrite Uint8Array_set_first by lia. cbn [bind].
    rewrite Uint8Array_set_next by lia.
    rewrite List.length_app, Nat.sub_diag. cbn [List.repeat].
    now rewrite List.app_nil_r. }
  destruct (Nat.ltb_spec (List.length event) 48) as [Hshort | Hlong].
  - rewrite Uint8Array_set_first by lia. cbn [bind]. apply Hwrite.
  - cbn [bind]. apply Hwrite.
Qed.

Lemma replayLoop_fold (mr : Uint8Array) (history : list jsstring) :
  replayLoop mr history = uint8ArrayToHex (List.fold_left extend history mr).
Proof.
  revert mr. induction history as [|content rest IH]; intros mr.
  - reflexivity.
  - cbn [replayLoop List.fold_left].
    rewrite replayCombined_buffer. apply IH.
Qed.

Lemma rtmrReplay_fold (history : list jsstring) :
  rtmrReplay history =
  uint8ArrayToHex (List.fold_left extend history zeroRegister).
Proof.
  unfold rtmrReplay. destruct history as [|content rest].
  - reflexivity.
  - cbn [List.length Nat.eqb].
    change (hexToUint8Array INIT_MR) with zeroRegister.
    apply replayLoop_fold.
Qed.

Lemma fold_extend_length (history : list jsstring) (register : Uint8Array) :
  List.length register = 48%nat ->
  List.length (List.fold_left extend history register) = 48%nat.
Proof.
  revert register. induction history as [|d rest IH]; intros register Hlen.
  - exact Hlen.
  - cbn [List.fold_left]. apply IH. apply sha384_length.
Qed.

Lemma replayBuffers_length (history : list jsstring) (mr : Uint8Array) :
  List.length (replayBuffers mr history) = List.length history.
Proof.
  revert mr. induction history as [|content rest IH]; intros mr.
  - reflexivity.
  - cbn [replayBuffers]. rewrite replayCombined_buffer.
    cbn [List.length]. now rewrite IH.
Qed.

Lemma replayBuffers_96 (history : list jsstring) (mr : Uint8Array) :
  List.length mr = 48%nat ->
  Forall (fun d => (List.length (hexToUint8Array d) <= 48)%nat) history ->
  Forall (fun buffer => List.length buffer = 96%nat)
         (replayBuffers mr history).
Proof.
  intros Hmr Hall. revert mr Hmr.
  induction Hall as [|content rest Hle _ IH]; intros mr Hmr.
  - constructor.
  - cbn [replayBuffers]. rewrite replayCombined_buffer. constructor.
    + rewrite List.length_app, padEvent_length. lia.
    + apply IH. apply sha384_length.
Qed.

Lemma rtmrReplay_length (history : list jsstring) :
  List.length (rtmrReplay history) = 96%nat.
Proof.
  rewrite rtmrReplay_fold, uint8ArrayToHex_encodeHex, encodeHex_length.
  rewrite fold_extend_length; reflexivity.
Qed.

(** C2.  The replay is a left fold from 48 zero bytes: each digest is
    decoded, filled with zero bytes on the right when shorter than 48, put
    after the register, and the SHA-384 of the two becomes the register;
    the last register is returned in hex.  The register always has 48
    bytes, the digested buffer has 96 when the decoded digest has at most
    48, and the empty list gives 96 times the character 0 (the unit 48). *)
Theorem rtmrReplay_left_fold (history : list jsstring) :
  rtmrReplay history =
  encodeHex
    (List.fold_left
       (fun register digest =>
          sha384 (register ++ padEvent (hexToUint8Array digest)))
       history (List.repeat x00 48)) /\
  List.length (List.fold_left extend history zeroRegister) = 48%nat /\
  (Forall (fun d => (List.length (hexToUint8Array d) <= 48)%nat) history ->
   List.length (replayBuffers zeroRegister history) = List.length history /\
   Forall (fun buffer => List.length buffer = 96%nat)
          (replayBuffers zeroRegister history)) /\
  rtmrReplay [] = List.repeat 48 96.
Proof.
  repeat split.
  - rewrite rtmrReplay_fold. apply uint8ArrayToHex_encodeHex.
  - apply fold_extend_length. reflexivity.
  - apply replayBuffers_length.
  - apply replayBuffers_96; [reflexivity | assumption].
Qed.

Lemma rtmrReplay_left_fold_witness :
  Forall (fun buffer => List.length buffer = 96%nat)
         (replayBuffers zeroRegister [js "0a0b"; js ""; zeros48hex]).
Proof.
  apply (rtmrReplay_left_fold [js "0a0b"; js ""; zeros48hex]).
  repeat constructor.
Defined.

(** *** A digest longer than 48 bytes *)

(** The loop has no test for a long entry: it is digested like any other,
    all 49 bytes of it, and the function returns a register, not the empty
    string of its [catch]. *)
Lemma rtmrReplay_overlong_not_error :
  (48 < List.length (hexToUint8Array overlongEntry))%nat /\
  rtmrReplay [overlongEntry] <> [] /\
  rtmrReplay [overlongEntry] =
  encodeHex (sha384 (zeroRegister ++ hexToUint8Array overlongEntry)) /\
  rtmrReplay [overlongEntry] =
  js ("cdbc56cc9d0c6170dd7f14911b2cb631d40373febaaae657" ++
      "3068887ca2314fa289a742205248298de477b9d4d1febcb3").
Proof.
  assert (H : rtmrReplay [overlongEntry] =
              js ("cdbc56cc9d0c6170dd7f14911b2cb631d40373febaaae657" ++
                  "3068887ca2314fa289a742205248298de477b9d4d1febcb3"))
    by (vm_compute; reflexivity).
  split; [vm_compute; lia|].
  split; [rewrite H; discriminate|].
  split; [vm_compute; reflexivity | exact H].
Qed.

Lemma padEvent_long (event : Uint8Array) :
  (48 <= List.length event)%nat -> padEvent event = event.
Proof.
  intros H. unfold padEvent.
  destruct (Nat.ltb_spec (List.length event) 48); [lia | reflexivity].
Qed.

(** C6, as the code has it.  An entry that decodes to more than 48 bytes,
    wherever it stands in the list, raises no error and loses no byte: the
    register is extended with the digest of the 48-byte register followed
    by all the bytes of the entry, and the replay returns a register of 96
    characters. *)
Theorem rtmrReplay_overlong_entry (before after : list jsstring)
    (d : jsstring) :
  (48 < List.length (hexToUint8Array d))%nat ->
  let register := List.fold_left extend before zeroRegister in
  replayCombined register d = Some (register ++ hexToUint8Array d) /\
  List.length (register ++ hexToUint8Array d) =
    (48 + List.length (hexToUint8Array d))%nat /\
  rtmrReplay (before ++ d :: after) =
    encodeHex (List.fold_left extend after
                 (sha384 (register ++ hexToUint8Array d))) /\
  List.length (rtmrReplay (before ++ d :: after)) = 96%nat.
Proof.
  intros Hlong register.
  assert (Hreg : List.length register = 48%nat)
    by (apply fold_extend_length; reflexivity).
  split; [|split; [|split]].
  - rewrite replayCombined_buffer, padEvent_long by lia. reflexivity.
  - rewrite List.length_app, Hreg. reflexivity.
  - rewrite rtmrReplay_fold, uint8ArrayToHex_encodeHex, List.fold_left_app.
    cbn [List.fold_left]. fold register. unfold extend at 2.
    rewrite padEvent_long by lia. reflexivity.
  - apply rtmrReplay_length.
Qed.

Lemma rtmrReplay_overlong_entry_witness :
  replayCombined zeroRegister overlongEntry =
  Some (zeroRegister ++ hexToUint8Array overlongEntry).
Proof.
  apply (rtmrReplay_overlong_entry [] [] overlongEntry).
  vm_compute. lia.
Defined.

Lemma hexToUint8Array_scan_witness : hexToUint8Array (js "xyz") = [].
Proof.
  apply (hexToUint8Array_scan (js "xyz")). intros ps Hsel.
  destruct (hexToUint8Array_scan (js "xyz")) as (_ & Hlongest & _).
  specialize (Hlongest ps Hsel). destruct ps; [reflexivity|].
  simpl in Hlongest. lia.
Defined.

(** ** The manifest hasher *)

Section ManifestProperties.
Context {num : NumberOps} {engine : Engine}.

Lemma jsstring_eqb_eq (a b : jsstring) : jsstring_eqb a b = true <-> a = b.
Proof.
  unfold jsstring_eqb. destruct (list_eq_dec N.eq_dec a b); split;
    congruence.
Qed.

Lemma jsstring_eqb_refl (a : jsstring) : jsstring_eqb a a = true.
Proof. now apply jsstring_eqb_eq. Qed.

(** Whether a key is found does not depend on the value written. *)
Lemma replaceValue_none (props : properties) (k : jsstring) (v w : JSValue) :
  replaceValue props k v = None -> replaceValue props k w = None.
Proof.
  induction props as [|[k' v'] rest IH]; [reflexivity|].
  cbn [replaceValue]. destruct (jsstring_eqb k' k); [discriminate|].
  destruct (replaceValue rest k v); [discriminate|].
  intros _. now rewrite IH.
Qed.

Lemma replaceValue_twice (props props' : properties) (k : jsstring)
    (v w : JSValue) :
  replaceValue props k v = Some props' ->
  replaceValue props' k w = replaceValue props k w.
Proof.
  revert props'. induction props as [|[k' v'] rest IH]; intros props'.
  - discriminate.
  - cbn [replaceValue]. destruct (jsstring_eqb k' k) eqn:E.
    + intros [= <-]. cbn [replaceValue]. now rewrite E.
    + destruct (replaceValue rest k v) as [rest'|] eqn:R; [|discriminate].
      intros [= <-]. cbn [replaceValue]. rewrite E.
      now rewrite (IH rest' eq_refl).
Qed.

Lemma replaceValue_appended (props : properties) (k : jsstring)
    (v w : JSValue) :
  replaceValue props k v = None ->
  replaceValue (props ++ [(k, v)]) k w = Some (props ++ [(k, w)]).
Proof.
  induction props as [|[k' v'] rest IH].
  - intros _. cbn. now rewrite jsstring_eqb_refl.
  - cbn [replaceValue List.app]. destruct (jsstring_eqb k' k); [discriminate|].
    destruct (replaceValue rest k v); [discriminate|].
    intros _. now rewrite IH.
Qed.

Lemma replaceValue_inserted (props : properties) (i : N) (k : jsstring)
    (v w : JSValue) :
  replaceValue props k v = None ->
  replaceValue (insertIndex props i k v) k w = Some (insertIndex props i k w).
Proof.
  induction props as [|[k' v'] rest IH].
  - intros _. cbn. now rewrite jsstring_eqb_refl.
  - cbn [replaceValue insertIndex].
    destruct (jsstring_eqb k' k) eqn:E; [discriminate|].
    destruct (replaceValue rest k v) eqn:R; [discriminate|].
    intros _.
    destruct (arrayIndex k') as [j|].
    + destruct (j <? i).
      * cbn [replaceValue]. rewrite E, IH by reflexivity. reflexivity.
      * cbn [replaceValue]. now rewrite jsstring_eqb_refl.
    + cbn [replaceValue]. now rewrite jsstring_eqb_refl.
Qed.

(** Defining a property twice is defining it once with the later value:
    the first definition fixes the place, the second the value. *)
Lemma defineProperty_twice (props : properties) (k : jsstring)
    (v w : JSValue) :
  defineProperty (defineProperty props k v) k w = defineProperty props k w.
Proof.
  unfold defineProperty at 2 3.
  destruct (replaceValue props k v) as [props'|] eqn:R.
  - unfold defineProperty.
    rewrite (replaceValue_twice _ _ _ _ w R).
    destruct (replaceValue props k w) eqn:R'; [reflexivity|].
    apply (replaceValue_none _ _ _ v) in R'. congruence.
  - rewrite (replaceValue_none _ _ _ w R).
    unfold defineProperty. destruct (arrayIndex k) as [i|].
    + now rewrite (replaceValue_inserted _ _ _ _ w R).
    + now rewrite (replaceValue_appended _ _ _ w R).
Qed.

(** *** The fuel of the parser *)

Lemma skipWs_length (s : jsstring) :
  (List.length (skipWs s) <= List.length s)%nat.
Proof.
  induction s as [|c s IH]; [reflexivity|].
  cbn [skipWs]. destruct (isJSONWhiteSpace c); cbn [List.length]; lia.
Qed.

Lemma nextIs_shorter (c : N) (s r : jsstring) :
  nextIs c s = Some r -> (List.length r < List.length s)%nat.
Proof.
  unfold nextIs. pose proof (skipWs_length s) as H.
  destruct (skipWs s) as [|x t]; [discriminate|].
  destruct (x =? c); [|discriminate].
  intros [= <-]. cbn [List.length] in H. lia.
Qed.

Lemma parseStringBody_shorter (s str r : jsstring) :
  parseStringBody s = Some (str, r) ->
  (List.length r < List.length s)%nat.
Proof.
  remember (List.length s) as n eqn:Hn.
  assert (Hle : (List.length s <= n)%nat) by lia. clear Hn.
  revert s str r Hle.
  induction n as [|n IH]; intros s str r Hle;
    (destruct s as [|c rest]; [discriminate|]); cbn [List.length] in Hle;
    [lia|].
  cbn [parseStringBody].
  destruct (c =? 34); [intros [= _ <-]; cbn [List.length]; lia|].
  destruct (c <? 32); [discriminate|].
  destruct (c =? 92).
  - destruct rest as [|e rest1]; [discriminate|].
    cbn [List.length] in Hle.
    destruct (e =? 117).
    + destruct rest1 as [|h1 [|h2 [|h3 [|h4 rest2]]]]; try discriminate.
      cbn [List.length] in Hle.
      destruct (hexDigitValue h1); [|discriminate].
      destruct (hexDigitValue h2); [|discriminate].
      destruct (hexDigitValue h3); [|discriminate].
      destruct (hexDigitValue h4); [|discriminate].
      destruct (parseStringBody rest2) as [[str' r']|] eqn:P; [|discriminate].
      intros [= _ <-]. apply IH in P; [|lia]. cbn [List.length]. lia.
    + destruct (simpleEscape e); [|discriminate].
      destruct (parseStringBody rest1) as [[str' r']|] eqn:P; [|discriminate].
      intros [= _ <-]. apply IH in P; [|lia]. cbn [List.length]. lia.
  - destruct (parseStringBody rest) as [[str' r']|] eqn:P; [|discriminate].
    intros [= _ <-]. apply IH in P; [|lia]. cbn [List.length]. lia.
Qed.

Lemma spanDigits_length (s : jsstring) :
  (List.length (fst (spanDigits s)) + List.length (snd (spanDigits s)) =
   List.length s)%nat.
Proof.
  induction s as [|c s IH]; [reflexivity|].
  cbn [spanDigits]. destruct (isDigit c); [|reflexivity].
  destruct (spanDigits s) as [ds r]. cbn [fst snd List.length] in *. lia.
Qed.

Lemma digits1_shorter (s : jsstring) (dr : jsstring * jsstring) :
  digits1 s = Some dr -> (List.length (snd dr) < List.length s)%nat.
Proof.
  unfold digits1. pose proof (spanDigits_length s) as H.
  destruct (spanDigits s) as [[|d ds] r]; [discriminate|].
  intros [= <-]. cbn [fst snd List.length] in *. lia.
Qed.

Lemma takeIf_length (test : N -> bool) (s : jsstring) :
  (List.length (snd (takeIf test s)) <= List.length s)%nat.
Proof.
  destruct s as [|c r]; [reflexivity|].
  cbn [takeIf]. destruct (test c); cbn [snd List.length]; lia.
Qed.

Lemma intPart_shorter (s : jsstring) (x : jsstring * jsstring) :
  intPart s = Some x -> (List.length (snd x) < List.length s)%nat.
Proof.
  destruct s as [|c r]; [discriminate|]. cbn [intPart].
  destruct (c =? 48).
  - intros [= <-]. cbn [snd List.length]. lia.
  - apply digits1_shorter.
Qed.

Lemma fracPart_length (s : jsstring) (x : jsstring * jsstring) :
  fracPart s = Some x -> (List.length (snd x) <= List.length s)%nat.
Proof.
  destruct s as [|c r]; cbn [fracPart]; [intros [= <-]; reflexivity|].
  destruct (c =? 46).
  - destruct (digits1 r) as [dr|] eqn:D; [|discriminate].
    apply digits1_shorter in D. intros [= <-].
    cbn [snd List.length]. lia.
  - intros [= <-]. reflexivity.
Qed.

Lemma expPart_length (s : jsstring) (x : jsstring * jsstring) :
  expPart s = Some x -> (List.length (snd x) <= List.length s)%nat.
Proof.
  destruct s as [|e r]; cbn [expPart]; [intros [= <-]; reflexivity|].
  destruct ((e =? 101) || (e =? 69)).
  - cbv zeta.
    pose proof (takeIf_length (fun c => (c =? 43) || (c =? 45)) r) as Hs.
    destruct (digits1 (snd (takeIf (fun c => (c =? 43) || (c =? 45)) r)))
      as [dr|] eqn:D; [|discriminate].
    apply digits1_shorter in D. intros [= <-].
    cbn [snd List.length]. lia.
  - intros [= <-]. reflexivity.
Qed.

Lemma parseNumberToken_shorter (s : jsstring) (tr : jsstring * jsstring) :
  parseNumberToken s = Some tr ->
  (List.length (snd tr) < List.length s)%nat.
Proof.
  unfold parseNumberToken. cbv zeta.
  pose proof (takeIf_length (N.eqb 45) s) as Hs.
  destruct (intPart (snd (takeIf (N.eqb 45) s))) as [int|] eqn:I;
    [|discriminate].
  apply intPart_shorter in I. cbn [bind].
  destruct (fracPart (snd int)) as [frac|] eqn:F; [|discriminate].
  apply fracPart_length in F. cbn [bind].
  destruct (expPart (snd frac)) as [exp|] eqn:E; [|discriminate].
  apply expPart_length in E. cbn [bind].
  intros [= <-]. cbn [snd]. lia.
Qed.

Lemma stripPrefix_shorter (lit s r : jsstring) :
  lit <> [] -> stripPrefix lit s = Some r ->
  (List.length r < List.length s)%nat.
Proof.
  intros Hlit. unfold stripPrefix.
  destruct (jsstring_eqb (List.firstn (List.length lit) s) lit) eqn:E;
    [|discriminate].
  apply jsstring_eqb_eq in E. intros [= <-].
  apply (f_equal (@List.length N)) in E.
  rewrite List.length_firstn in E. rewrite List.length_skipn.
  destruct lit; [contradiction|]. cbn [List.length] in *. lia.
Qed.

(** What a successful call leaves is shorter than what it was given. *)
Lemma parse_shorter (fuel : nat) :
  (forall s r, parseValue fuel s = Some r ->
               (List.length (snd r) < List.length s)%nat) /\
  (forall s acc r, parseElements fuel s acc = Some r ->
                   (List.length (snd r) < List.length s)%nat) /\
  (forall s acc r, parseMembers fuel s acc = Some r ->
                   (List.length (snd r) < List.length s)%nat).
Proof.
  induction fuel as [|f (IHv & IHe & IHm)];
    [repeat split; discriminate|].
  split; [|split].
  - intros s r. cbn [parseValue].
    pose proof (skipWs_length s) as Hs.
    destruct (skipWs s) as [|c rest]; [discriminate|].
    cbn [List.length] in Hs.
    destruct (c =? 123).
    { destruct (nextIs 125 rest) as [r'|] eqn:N.
      - apply nextIs_shorter in N. intros [= <-]. cbn [snd]. lia.
      - intros H. apply IHm in H. lia. }
    destruct (c =? 91).
    { destruct (nextIs 93 rest) as [r'|] eqn:N.
      - apply nextIs_shorter in N. intros [= <-]. cbn [snd]. lia.
      - intros H. apply IHe in H. lia. }
    destruct (c =? 34).
    { destruct (parseStringBody rest) as [[str r']|] eqn:P; [|discriminate].
      apply parseStringBody_shorter in P. intros [= <-]. cbn [snd]. lia. }
    destruct (c =? 116).
    { destruct (stripPrefix (js "true") (c :: rest)) as [r'|] eqn:P;
        [|discriminate].
      apply stripPrefix_shorter in P; [|discriminate].
      intros [= <-]. cbn [snd List.length] in *. lia. }
    destruct (c =? 102).
    { destruct (stripPrefix (js "false") (c :: rest)) as [r'|] eqn:P;
        [|discriminate].
      apply stripPrefix_shorter in P; [|discriminate].
      intros [= <-]. cbn [snd List.length] in *. lia. }
    destruct (c =? 110).
    { destruct (stripPrefix (js "null") (c :: rest)) as [r'|] eqn:P;
        [|discriminate].
      apply stripPrefix_shorter in P; [|discriminate].
      intros [= <-]. cbn [snd List.length] in *. lia. }
    destruct ((c =? 45) || isDigit c); [|discriminate].
    destruct (parseNumberToken (c :: rest)) as [tr|] eqn:P; [|discriminate].
    apply parseNumberToken_shorter in P.
    intros [= <-]. cbn [snd List.length] in *. lia.
  - intros s acc r. cbn [parseElements].
    destruct (parseValue f s) as [vr|] eqn:V; [|discriminate].
    apply IHv in V. cbn [bind].
    pose proof (skipWs_length (snd vr)) as Hs.
    destruct (skipWs (snd vr)) as [|c r']; [discriminate|].
    cbn [List.length] in Hs.
    destruct (c =? 44).
    { intros H. apply IHe in H. lia. }
    destruct (c =? 93); [|discriminate].
    intros [= <-]. cbn [snd]. lia.
  - intros s acc r. cbn [parseMembers].
    destruct (nextIs 34 s) as [r0|] eqn:N0; [|discriminate].
    apply nextIs_shorter in N0. cbn [bind].
    destruct (parseStringBody r0) as [kr|] eqn:K; [|discriminate].
    destruct kr as [k rk]. apply parseStringBody_shorter in K. cbn [bind snd].
    destruct (nextIs 58 rk) as [r1|] eqn:N1; [|discriminate].
    apply nextIs_shorter in N1. cbn [bind].
    destruct (parseValue f r1) as [vr|] eqn:V; [|discriminate].
    apply IHv in V. cbn [bind].
    pose proof (skipWs_length (snd vr)) as Hs.
    destruct (skipWs (snd vr)) as [|c r2]; [discriminate|].
    cbn [List.length] in Hs.
    destruct (c =? 44).
    { intros H. apply IHm in H. lia. }
    destruct (c =? 125); [|discriminate].
    intros [= <-]. cbn [snd]. lia.
Qed.

(** What some fuel parses, any fuel that covers the units consumed parses
    the same way. *)
Lemma parse_fuel_enough (fuel : nat) :
  (forall s r f,
      parseValue fuel s = Some r ->
      (List.length s - List.length (snd r) <= f)%nat ->
      parseValue f s = Some r) /\
  (forall s acc r f,
      parseElements fuel s acc = Some r ->
      (List.length s - List.length (snd r) <= f)%nat ->
      parseElements f s acc = Some r) /\
  (forall s acc r f,
      parseMembers fuel s acc = Some r ->
      (List.length s - List.length (snd r) <= f)%nat ->
      parseMembers f s acc = Some r).
Proof.
  induction fuel as [|f' (IHv & IHe & IHm)];
    [repeat split; discriminate|].
  destruct (parse_shorter f') as (Lv & Le & Lm).
  destruct (parse_shorter (S f')) as (Lv' & Le' & Lm').
  split; [|split].
  - intros s r f H Hf. pose proof (Lv' _ _ H) as Hshort.
    destruct f as [|f0]; [lia|].
    cbn [parseValue] in H |- *.
    pose proof (skipWs_length s) as Hs.
    destruct (skipWs s) as [|c rest]; [discriminate|].
    cbn [List.length] in Hs.
    destruct (c =? 123).
    { destruct (nextIs 125 rest) as [r'|]; [exact H|].
      apply (IHm _ _ _ f0) in H; [exact H | lia]. }
    destruct (c =? 91).
    { destruct (nextIs 93 rest) as [r'|]; [exact H|].
      apply (IHe _ _ _ f0) in H; [exact H | lia]. }
    exact H.
  - intros s acc r f H Hf. pose proof (Le' _ _ _ H) as Hshort.
    destruct f as [|f0]; [lia|].
    cbn [parseElements] in H |- *.
    destruct (parseValue f' s) as [vr|] eqn:V; [|discriminate].
    pose proof (Lv _ _ V) as Hv. cbn [bind] in H.
    pose proof (skipWs_length (snd vr)) as Hs.
    assert (Hrest : (List.length (snd r) < List.length (snd vr))%nat).
    { destruct (skipWs (snd vr)) as [|c r']; [discriminate|].
      cbn [List.length] in Hs.
      destruct (c =? 44); [apply Le in H; lia|].
      destruct (c =? 93); [|discriminate].
      injection H as <-. cbn [snd]. lia. }
    rewrite (IHv _ _ f0 V) by lia. cbn [bind].
    destruct (skipWs (snd vr)) as [|c r']; [discriminate|].
    cbn [List.length] in Hs.
    destruct (c =? 44); [|exact H].
    apply (IHe _ _ _ f0) in H; [exact H | lia].
  - intros s acc r f H Hf. pose proof (Lm' _ _ _ H) as Hshort.
    destruct f as [|f0]; [lia|].
    cbn [parseMembers] in H |- *.
    destruct (nextIs 34 s) as [r0|] eqn:N0; [|discriminate].
    apply nextIs_shorter in N0. cbn [bind] in H |- *.
    destruct (parseStringBody r0) as [[k rk]|] eqn:K; [|discriminate].
    apply parseStringBody_shorter in K. cbn [bind snd fst] in H |- *.
    destruct (nextIs 58 rk) as [r1|] eqn:N1; [|discriminate].
    apply nextIs_shorter in N1. cbn [bind] in H |- *.
    destruct (parseValue f' r1) as [vr|] eqn:V; [|discriminate].
    pose proof (Lv _ _ V) as Hv. cbn [bind] in H.
    pose proof (skipWs_length (snd vr)) as Hs.
    assert (Hrest : (List.length (snd r) < List.length (snd vr))%nat).
    { destruct (skipWs (snd vr)) as [|c r2]; [discriminate|].
      cbn [List.length] in Hs.
      destruct (c =? 44); [apply Lm in H; lia|].
      destruct (c =? 125); [|discriminate].
      injection H as <-. cbn [snd]. lia. }
    rewrite (IHv _ _ f0 V) by lia. cbn [bind].
    destruct (skipWs (snd vr)) as [|c r2]; [discriminate|].
    cbn [List.length] in Hs.
    destruct (c =? 44); [|exact H].
    apply (IHm _ _ _ f0) in H; [exact H | lia].
Qed.

(** The fuel that [JSON_parse] gives is never the reason for a rejection:
    whatever any fuel parses, it parses the same way. *)
Lemma parseValue_fuel (fuel : nat) (text : jsstring)
    (r : JSValue * jsstring) :
  parseValue fuel text = Some r ->
  parseValue (2 + List.length text) text = Some r.
Proof.
  intros H. destruct (parse_fuel_enough fuel) as (Hv & _).
  apply (Hv _ _ _ H). lia.
Qed.

Lemma JSON_parse_rejection (text : jsstring) :
  JSON_parse text = None ->
  forall fuel r,
    parseValue fuel text = Some r -> skipWs (snd r) <> [].
Proof.
  unfold JSON_parse. intros Hnone fuel r H.
  rewrite (parseValue_fuel fuel text r H) in Hnone. cbn [bind] in Hnone.
  destruct (skipWs (snd r)); [discriminate | discriminate].
Qed.

(** *** A text that parses is not blank *)

Lemma trimStart_head (s : jsstring) (c : N) (rest : jsstring) :
  trimStart s = c :: rest -> isWhiteSpace c = false.
Proof.
  induction s as [|a s IH]; [discriminate|].
  cbn [trimStart]. destruct (isWhiteSpace a) eqn:E; [exact IH|].
  intros [= <- _]. exact E.
Qed.

Lemma trimStart_nil (s : jsstring) :
  trimStart s = [] -> Forall (fun c => isWhiteSpace c = true) s.
Proof.
  induction s as [|a s IH]; [constructor|].
  cbn [trimStart]. destruct (isWhiteSpace a) eqn:E; [|discriminate].
  intros H. constructor; [exact E | exact (IH H)].
Qed.

Lemma String_trim_nil (s : jsstring) :
  String_trim s = [] -> Forall (fun c => isWhiteSpace c = true) s.
Proof.
  unfold String_trim. intros H.
  apply (f_equal (@List.rev N)) in H. rewrite List.rev_involutive in H.
  cbn [List.rev] in H. apply trimStart_nil in H.
  apply trimStart_nil.
  destruct (trimStart s) as [|c rest] eqn:E; [reflexivity|].
  apply trimStart_head in E.
  apply Forall_rev in H. rewrite List.rev_involutive in H.
  inversion H; congruence.
Qed.

Lemma skipWs_forall (P : N -> Prop) (s : jsstring) :
  Forall P s -> Forall P (skipWs s).
Proof.
  induction 1 as [|c s Hc Hs IH]; [constructor|].
  cbn [skipWs]. destruct (isJSONWhiteSpace c); [exact IH|].
  constructor; assumption.
Qed.

(** No white space character begins a JSON value. *)
Lemma isWhiteSpace_no_value (c : N) :
  isWhiteSpace c = true ->
  (c =? 123) = false /\ (c =? 91) = false /\ (c =? 34) = false /\
  (c =? 116) = false /\ (c =? 102) = false /\ (c =? 110) = false /\
  (c =? 45) = false /\ isDigit c = false.
Proof.
  intros H.
  repeat split;
    try (apply N.eqb_neq; intros ->; discriminate H).
  unfold isDigit. destruct (N.leb_spec 48 c); [|reflexivity].
  destruct (N.leb_spec c 57); [|reflexivity].
  assert (Hc : In c [48; 49; 50; 51; 52; 53; 54; 55; 56; 57])
    by (simpl In; lia).
  simpl In in Hc.
  repeat (destruct Hc as [<- | Hc]; [discriminate H|]). contradiction.
Qed.

Lemma parseValue_blank (fuel : nat) (s : jsstring) :
  Forall (fun c => isWhiteSpace c = true) s -> parseValue fuel s = None.
Proof.
  intros H. apply (skipWs_forall _ _) in H.
  destruct fuel as [|f]; [reflexivity|].
  cbn [parseValue]. destruct (skipWs s) as [|c rest]; [reflexivity|].
  inversion H as [|? ? Hc _]; subst.
  destruct (isWhiteSpace_no_value c Hc)
    as (E1 & E2 & E3 & E4 & E5 & E6 & E7 & E8).
  rewrite E1, E2, E3, E4, E5, E6, E7, E8. reflexivity.
Qed.

Lemma JSON_parse_not_blank (text : jsstring) (v : JSValue) :
  JSON_parse text = Some v -> String_not (String_trim text) = false.
Proof.
  intros Hparse. destruct (String_trim text) eqn:E; [|reflexivity].
  apply String_trim_nil in E. unfold JSON_parse in Hparse.
  rewrite parseValue_blank in Hparse by exact E. discriminate.
Qed.

(** *** What is digested *)

Lemma stackDepth_two : (2 <= stackDepth)%nat.
Proof. apply Nat.leb_le, stackDepth_min. Qed.

(** The [catch] of [getComposeHash] is reached only through the
    [RangeError] of [JSON.stringify]. *)
Lemma getComposeHash_cases (text : jsstring) :
  getComposeHash text =
  if hashable text then manifestDigest (adjustedManifest text) else [].
Proof.
  unfold getComposeHash, hashable, JSON_stringify_call.
  destruct (String_not (String_trim text)); [reflexivity|].
  cbn [negb andb].
  destruct (nesting (adjustedManifest text) <=? stackDepth)%nat; reflexivity.
Qed.

Lemma getComposeHash_not_blank (text : jsstring) :
  String_not (String_trim text) = false ->
  (nesting (adjustedManifest text) <= stackDepth)%nat ->
  getComposeHash text = manifestDigest (adjustedManifest text).
Proof.
  intros H Hdepth. rewrite getComposeHash_cases. unfold hashable.
  rewrite H. apply Nat.leb_le in Hdepth. now rewrite Hdepth.
Qed.

(** Two manifests that are not blank and give the same document have the
    same hash, be it a digest or the empty string. *)
Lemma getComposeHash_same_document (t1 t2 : jsstring) :
  String_not (String_trim t1) = false ->
  String_not (String_trim t2) = false ->
  adjustedManifest t1 = adjustedManifest t2 ->
  getComposeHash t1 = getComposeHash t2.
Proof.
  intros H1 H2 H. rewrite !getComposeHash_cases. unfold hashable.
  now rewrite H1, H2, H.
Qed.

Lemma String_not_false (s : jsstring) : s <> [] -> String_not s = false.
Proof. destruct s; [contradiction | reflexivity]. Qed.

Lemma manifestDigest_length (document : JSValue) :
  List.length (manifestDigest document) = 64%nat.
Proof.
  unfold manifestDigest.
  rewrite uint8ArrayToHex_encodeHex, encodeHex_length, sha256_length.
  reflexivity.
Qed.

Lemma adjustedManifest_parsed (text : jsstring) (v : JSValue) :
  JSON_parse text = Some v ->
  adjustedManifest text =
  JObject (defineProperty (spread v) docker_config (JObject [])).
Proof. intros H. unfold adjustedManifest, manifestDict. now rewrite H. Qed.

(** C10.  A text that is not blank and parses as a number, a boolean or
    [null] is hashed as the document [{"docker_config":{}}]: all such texts
    have one and the same hash. *)
Theorem getComposeHash_primitive (text : jsstring) (v : JSValue) :
  String_trim text <> [] ->
  JSON_parse text = Some v ->
  isPrimitive v = true ->
  getComposeHash text =
    uint8ArrayToHex
      (sha256 (TextEncoder_encode (jsq "{'docker_config':{}}"))) /\
  getComposeHash text =
    js "1895320a847179d0a96a2b08d967732ce8926a1e99e629a22fcc3476fa3896eb".
Proof.
  intros Hblank Hparse Hprim.
  assert (H : getComposeHash text =
              uint8ArrayToHex
                (sha256 (TextEncoder_encode (jsq "{'docker_config':{}}")))).
  { assert (Hadj : adjustedManifest text =
                   JObject [(docker_config, JObject [])]).
    { rewrite (adjustedManifest_parsed text v Hparse).
      destruct v; try discriminate Hprim; reflexivity. }
    rewrite getComposeHash_not_blank;
      [| apply String_not_false, Hblank
       | rewrite Hadj; exact stackDepth_two].
    rewrite Hadj. reflexivity. }
  split; [exact H|]. rewrite H. vm_compute. reflexivity.
Qed.


(** C4, as the code has it.  When one of two parsed documents is the other
    with [docker_config] defined anew (its contents replaced where the key
    stands, or the key added last when it was missing), both texts have the
    same hash; and equal texts have equal hashes. *)
Theorem getComposeHash_docker_config (t1 t2 : jsstring) (o1 o2 : properties)
    (v : JSValue) :
  JSON_parse t1 = Some (JObject o1) ->
  JSON_parse t2 = Some (JObject o2) ->
  o2 = defineProperty o1 docker_config v \/
  o1 = defineProperty o2 docker_config v ->
  getComposeHash t1 = getComposeHash t2 /\
  (forall a b : jsstring, a = b -> getComposeHash a = getComposeHash b).
Proof.
  intros H1 H2 Hrel. split; [|intros a b ->; reflexivity].
  apply getComposeHash_same_document;
    try (eapply JSON_parse_not_blank; eauto).
  rewrite (adjustedManifest_parsed t1 _ H1), (adjustedManifest_parsed t2 _ H2).
  cbn [spread]. destruct Hrel as [-> | ->];
    now rewrite defineProperty_twice.
Qed.

(** ** The orchestrator *)

Lemma String_not_length (s : jsstring) (n : nat) :
  List.length s = S n -> String_not s = false.
Proof. destruct s; [discriminate | reflexivity]. Qed.

Lemma calcDigest_truthy (eventName eventValue : jsstring) :
  String_not (calcDigest eventName eventValue) = String_not eventValue.
Proof.
  destruct eventValue as [|c rest]; [reflexivity|].
  rewrite calcDigest_nonempty by discriminate.
  apply (String_not_length _ 95).
  rewrite uint8ArrayToHex_encodeHex, encodeHex_length, sha384_length.
  reflexivity.
Qed.

Lemma getComposeHash_truthy (text : jsstring) :
  String_not (getComposeHash text) = negb (hashable text).
Proof.
  rewrite getComposeHash_cases. destruct (hashable text); [|reflexivity].
  apply (String_not_length _ _ (manifestDigest_length _)).
Qed.

Lemma every_truthy_digests (inputs : Inputs) :
  every_truthy (Object_values (digests (calculateValues inputs))) =
  allPresent inputs.
Proof.
  unfold calculateValues, Object_values, every_truthy, allPresent.
  cbn [digests d_rootFsHash d_appId d_composeHash d_caCertHash d_instanceId
       List.forallb].
  rewrite !calcDigest_truthy, getComposeHash_truthy.
  destruct (hashable (in_composeContent inputs)),
    (String_not (in_rootFsHash inputs)), (String_not (in_appId inputs)),
    (String_not (in_caCertHash inputs)), (String_not (in_instanceId inputs));
    reflexivity.
Qed.

Lemma String_not_false_iff (s : jsstring) :
  String_not s = false <-> s <> [].
Proof.
  destruct s; cbn [String_not]; split; intros H; try discriminate;
    try reflexivity.
  now contradiction H.
Qed.

Lemma allPresent_iff (inputs : Inputs) :
  allPresent inputs = true <->
  String_trim (in_composeContent inputs) <> [] /\
  (nesting (adjustedManifest (in_composeContent inputs)) <= stackDepth)%nat /\
  in_rootFsHash inputs <> [] /\
  in_appId inputs <> [] /\
  in_caCertHash inputs <> [] /\
  in_instanceId inputs <> [].
Proof.
  unfold allPresent, hashable.
  rewrite !andb_true_iff, !negb_true_iff, !String_not_false_iff, Nat.leb_le.
  tauto.
Qed.

(** C3, as the code has it.  The replay runs exactly when the five digests
    are all non-empty, which is when the four hex inputs are not empty and
    the manifest has a hash: it is not blank and its document is not nested
    deeper than [JSON.stringify] can follow, whose failure the [catch] of
    [getComposeHash] turns into the empty string.  The register is then 96
    lowercase hexadecimal characters, and the empty string in every other
    case.  Whether a hex input is well formed plays no part. *)
Theorem calculateValues_rtmr3 (inputs : Inputs) :
  let result := calculateValues inputs in
  let digestValues := Object_values (digests result) in
  rtmr3 result =
    (if every_truthy digestValues then rtmrReplay digestValues else []) /\
  every_truthy digestValues = allPresent inputs /\
  (allPresent inputs = true <->
   String_trim (in_composeContent inputs) <> [] /\
   (nesting (adjustedManifest (in_composeContent inputs)) <= stackDepth)%nat /\
   in_rootFsHash inputs <> [] /\
   in_appId inputs <> [] /\
   in_caCertHash inputs <> [] /\
   in_instanceId inputs <> []) /\
  (allPresent inputs = true ->
   List.length (rtmr3 result) = 96%nat /\
   Forall (fun c => isLowerHex c = true) (rtmr3 result)) /\
  (allPresent inputs = false -> rtmr3 result = []).
Proof.
  intros result digestValues.
  assert (Hcond : rtmr3 result =
                  if every_truthy digestValues
                  then rtmrReplay digestValues else []) by reflexivity.
  assert (Hpresent : every_truthy digestValues = allPresent inputs)
    by apply every_truthy_digests.
  split; [exact Hcond|]. split; [exact Hpresent|].
  split; [apply allPresent_iff|]. split.
  - intros Hall. rewrite Hcond, Hpresent, Hall. split.
    + apply rtmrReplay_length.
    + rewrite rtmrReplay_fold, uint8ArrayToHex_encodeHex.
      apply encodeHex_lower.
  - intros Hmissing. now rewrite Hcond, Hpresent, Hmissing.
Qed.

End ManifestProperties.

(** ** Evaluations *)

Lemma getComposeHash_primitive_witness :
  getComposeHash (js "5") =
    js "1895320a847179d0a96a2b08d967732ce8926a1e99e629a22fcc3476fa3896eb" /\
  getComposeHash (js " true ") =
    js "1895320a847179d0a96a2b08d967732ce8926a1e99e629a22fcc3476fa3896eb" /\
  getComposeHash (js "null") =
    js "1895320a847179d0a96a2b08d967732ce8926a1e99e629a22fcc3476fa3896eb".
Proof.
  split; [|split].
  - apply (getComposeHash_primitive (num := literalNumbers) (js "5") (JInteger 5));
      [vm_compute; discriminate | reflexivity | reflexivity].
  - apply (getComposeHash_primitive (num := literalNumbers) (js " true ") (JBool true));
      [vm_compute; discriminate | reflexivity | reflexivity].
  - apply (getComposeHash_primitive (num := literalNumbers) (js "null") JNull);
      [vm_compute; discriminate | reflexivity | reflexivity].
Defined.



(** [docker_config] keeps the place it has in the text, so the two
    documents are written out with their keys in different orders and the
    hashes differ. *)
Lemma getComposeHash_key_order :
  JSON_parse manifestConfigFirst =
    Some (JObject [(docker_config,
                    JObject [(js "x", JInteger 1)]);
                   (js "a", JString (js "b"))]) /\
  JSON_parse manifestNoConfig = Some (JObject [(js "a", JString (js "b"))]) /\
  removeKey docker_config
    [(docker_config, JObject [(js "x", JInteger 1)]);
     (js "a", JString (js "b"))] =
  removeKey docker_config [(js "a", JString (js "b"))] /\
  JSON_stringify (adjustedManifest manifestConfigFirst) =
    jsq "{'docker_config':{},'a':'b'}" /\
  JSON_stringify (adjustedManifest manifestNoConfig) =
    jsq "{'a':'b','docker_config':{}}" /\
  getComposeHash manifestConfigFirst <> getComposeHash manifestNoConfig.
Proof.
  split; [reflexivity|]. split; [reflexivity|]. split; [reflexivity|].
  split; [vm_compute; reflexivity|]. split; [vm_compute; reflexivity|].
  vm_compute. discriminate.
Qed.

Lemma getComposeHash_docker_config_witness :
  getComposeHash (jsq "{'a':1,'docker_config':{'x':[1,2]}}") =
  getComposeHash (jsq "{'a':1}") /\
  getComposeHash (jsq "{'docker_config':{'x':[1,2]},'a':1}") =
  getComposeHash (jsq "{'docker_config':null,'a':1}").
Proof.
  split.
  - refine (proj1 (getComposeHash_docker_config (num := literalNumbers)
             (jsq "{'a':1,'docker_config':{'x':[1,2]}}") (jsq "{'a':1}")
             [(js "a", JInteger 1);
              (docker_config,
               JObject [(js "x", JArray [JInteger 1; JInteger 2])])]
             [(js "a", JInteger 1)]
             (JObject [(js "x", JArray [JInteger 1; JInteger 2])])
             _ _ _));
      [reflexivity | reflexivity | right; reflexivity].
  - refine (proj1 (getComposeHash_docker_config (num := literalNumbers)
             (jsq "{'docker_config':{'x':[1,2]},'a':1}")
             (jsq "{'docker_config':null,'a':1}")
             [(docker_config,
               JObject [(js "x", JArray [JInteger 1; JInteger 2])]);
              (js "a", JInteger 1)]
             [(docker_config, JNull); (js "a", JInteger 1)]
             JNull _ _ _));
      [reflexivity | reflexivity | left; reflexivity].
Defined.

(** An input that is present but not valid still yields a register. *)
Lemma calculateValues_invalid_hex :
  isHexString (in_rootFsHash invalidHexInputs) = false /\
  rtmr3 (calculateValues invalidHexInputs) <> [] /\
  rtmr3 (calculateValues invalidHexInputs) =
  js ("cb85ec6314a90f25b3f0272c8de3968c22eacb518b2b6bd4" ++
      "2f35ffafea0a9277e1dfb6021bc07778ed6a5bc2e0c001ba").
Proof.
  split; [reflexivity|].
  assert (H : rtmr3 (calculateValues invalidHexInputs) =
              js ("cb85ec6314a90f25b3f0272c8de3968c22eacb518b2b6bd4" ++
                  "2f35ffafea0a9277e1dfb6021bc07778ed6a5bc2e0c001ba"))
    by (vm_compute; reflexivity).
  split; [rewrite H; discriminate | exact H].
Qed.

Lemma calculateValues_rtmr3_witness :
  List.length (rtmr3 (calculateValues scenarioInputs)) = 96%nat /\
  rtmr3 (calculateValues
           {| in_composeContent := [32; 10];
              in_rootFsHash := zeros48hex; in_appId := zeros48hex;
              in_caCertHash := zeros48hex; in_instanceId := zeros48hex |}) =
  [] /\
  rtmr3 (calculateValues
           {| in_composeContent := deepManifest;
              in_rootFsHash := zeros48hex; in_appId := zeros48hex;
              in_caCertHash := zeros48hex; in_instanceId := zeros48hex |}) =
  [].
Proof.
  split; [|split].
  - refine (proj1 (proj1 (proj2 (proj2 (proj2
              (calculateValues_rtmr3 scenarioInputs)))) _)).
    vm_compute. reflexivity.
  - refine (proj2 (proj2 (proj2 (proj2
              (calculateValues_rtmr3
                 {| in_composeContent := [32; 10];
                    in_rootFsHash := zeros48hex; in_appId := zeros48hex;
                    in_caCertHash := zeros48hex;
                    in_instanceId := zeros48hex |})))) _).
    vm_compute. reflexivity.
  - refine (proj2 (proj2 (proj2 (proj2
              (calculateValues_rtmr3
                 {| in_composeContent := deepManifest;
                    in_rootFsHash := zeros48hex; in_appId := zeros48hex;
                    in_caCertHash := zeros48hex;
                    in_instanceId := zeros48hex |})))) _).
    vm_compute. reflexivity.
Defined.

(** * Further properties of the code *)

(** ** The hex codec *)

Lemma matchAll_bound (s : jsstring) :
  (2 * List.length (matchAll s) <= List.length s)%nat.
Proof.
  induction s as [| a | a b rest Ha Hb IH | a b rest E IH] using scan_ind.
  - cbn. lia.
  - cbn. lia.
  - rewrite matchAll_take by assumption. cbn [List.length]. lia.
  - rewrite matchAll_skip by assumption. cbn [List.length] in *. lia.
Qed.

(** X1.  The decoder gives at most one byte for two units of text. *)
Theorem hexToUint8Array_length_bound (hex : jsstring) :
  (2 * List.length (hexToUint8Array hex) <= List.length hex)%nat.
Proof.
  rewrite hexToUint8Array_matchAll, List.length_map. apply matchAll_bound.
Qed.

Lemma matchAll_encodeHex_app (bs : Uint8Array) (s : jsstring) :
  matchAll (encodeHex bs ++ s) = List.map twoHex bs ++ matchAll s.
Proof.
  induction bs as [|b bs IH]; [reflexivity|].
  rewrite encodeHex_cons. cbn [List.app List.map].
  pose proof (twoHex_lower b) as Hl. unfold twoHex in Hl.
  inversion Hl as [|? ? H1 Hl']; subst. inversion Hl' as [|? ? H2 _]; subst.
  rewrite matchAll_take by (apply isLowerHex_hexClass; assumption).
  rewrite IH. reflexivity.
Qed.

Lemma hexToUint8Array_encodeHex_app (bs : Uint8Array) (s : jsstring) :
  hexToUint8Array (encodeHex bs ++ s) = bs ++ hexToUint8Array s.
Proof.
  rewrite !hexToUint8Array_matchAll, matchAll_encodeHex_app, List.map_app.
  f_equal. rewrite List.map_map.
  rewrite <- (List.map_id bs) at 2. apply List.map_ext. exact twoHex_parse.
Qed.

(** X2.  Text that begins with the encoding of some bytes decodes to these
    bytes followed by the decoding of the rest; a single unit left over at
    the end is dropped. *)
Theorem hexToUint8Array_after_encoding (b : Uint8Array) (rest : jsstring) :
  hexToUint8Array (uint8ArrayToHex b ++ rest) = b ++ hexToUint8Array rest /\
  (forall c, hexToUint8Array (uint8ArrayToHex b ++ [c]) = b).
Proof.
  rewrite uint8ArrayToHex_encodeHex. split.
  - apply hexToUint8Array_encodeHex_app.
  - intros c. rewrite hexToUint8Array_encodeHex_app. apply List.app_nil_r.
Qed.

Lemma twoHex_pairByte (a b : N) :
  hexClass a = true -> hexClass b = true ->
  twoHex (pairByte [a; b]) = [toLowerAscii a; toLowerAscii b].
Proof. intros Ha Hb. hex_cases Ha; hex_cases Hb; reflexivity. Qed.

Lemma encodeHex_decoded (s : jsstring) :
  List.forallb hexClass s = true -> Nat.even (List.length s) = true ->
  encodeHex (hexToUint8Array s) = List.map toLowerAscii s.
Proof.
  induction s as [| a | a b rest Ha Hb IH | a b rest E IH] using scan_ind.
  - reflexivity.
  - discriminate.
  - cbn [List.forallb List.length]. rewrite Ha, Hb. cbn [andb].
    intros Hall Heven.
    rewrite hexToUint8Array_pairByte, matchAll_take by assumption.
    cbn [List.map]. rewrite encodeHex_cons.
    change (digitChar (Byte.to_N (pairByte [a; b]) / 16)
              :: digitChar (Byte.to_N (pairByte [a; b]) mod 16)
              :: encodeHex (List.map pairByte (matchAll rest)))
      with (twoHex (pairByte [a; b]) ++
            encodeHex (List.map pairByte (matchAll rest))).
    rewrite twoHex_pairByte by assumption.
    rewrite <- hexToUint8Array_pairByte, IH by assumption. reflexivity.
  - cbn [List.forallb]. intros Hall _.
    apply andb_true_iff in Hall as [Ha Hall].
    apply andb_true_iff in Hall as [Hb _].
    rewrite Ha, Hb in E. discriminate.
Qed.

(** X3.  A well-formed hex string, decoded and encoded again, comes back in
    lowercase, unit for unit. *)
Theorem uint8ArrayToHex_hexToUint8Array (hex : jsstring) :
  isHexString hex = true ->
  uint8ArrayToHex (hexToUint8Array hex) = List.map toLowerAscii hex.
Proof.
  unfold isHexString. intros H. apply andb_true_iff in H as [Hall Heven].
  rewrite uint8ArrayToHex_encodeHex. apply encodeHex_decoded; assumption.
Qed.

Lemma uint8ArrayToHex_hexToUint8Array_witness :
  uint8ArrayToHex (hexToUint8Array (js "0aFFbC")) = js "0affbc".
Proof.
  apply (uint8ArrayToHex_hexToUint8Array (js "0aFFbC")). reflexivity.
Defined.

(** X4.  The encoder is one to one, and the encoding of two arrays put end
    to end is the two encodings put end to end. *)
Theorem uint8ArrayToHex_injective (a b : Uint8Array) :
  (uint8ArrayToHex a = uint8ArrayToHex b -> a = b) /\
  uint8ArrayToHex (a ++ b) = uint8ArrayToHex a ++ uint8ArrayToHex b.
Proof.
  rewrite !uint8ArrayToHex_encodeHex. split.
  - intros H. apply (f_equal hexToUint8Array) in H.
    now rewrite !hexToUint8Array_encodeHex in H.
  - unfold encodeHex. rewrite List.map_app. apply List.concat_app.
Qed.

Lemma uint8ArrayToHex_injective_witness : [x0a; xff] = [x0a; xff].
Proof.
  apply (uint8ArrayToHex_injective [x0a; xff] [x0a; xff]). reflexivity.
Defined.

(** ** The register replay *)

(** X5.  Whatever the list holds, the replay returns 96 lowercase
    hexadecimal characters: no turn of the loop throws, so the empty string
    of the [catch] is never returned. *)
Theorem rtmrReplay_never_fails (history : list jsstring) :
  (forall mr content, replayCombined mr content <> None) /\
  List.length (rtmrReplay history) = 96%nat /\
  Forall (fun c => isLowerHex c = true) (rtmrReplay history) /\
  rtmrReplay history <> [].
Proof.
  split; [|split; [|split]].
  - intros mr content. rewrite replayCombined_buffer. discriminate.
  - apply rtmrReplay_length.
  - rewrite rtmrReplay_fold, uint8ArrayToHex_encodeHex. apply encodeHex_lower.
  - pose proof (rtmrReplay_length history) as H.
    destruct (rtmrReplay history); [discriminate H | discriminate].
Qed.

Lemma hexToUint8Array_register (register : Uint8Array) :
  hexToUint8Array (uint8ArrayToHex register) = register.
Proof. rewrite uint8ArrayToHex_encodeHex. apply hexToUint8Array_encodeHex. Qed.

(** X6.  A log can be replayed in two parts: the register returned for the
    first part, decoded, is the register from which the loop goes on with
    the second part.  For one more event this is one more extension. *)
Theorem rtmrReplay_app (first second : list jsstring) (d : jsstring) :
  rtmrReplay (first ++ second) =
    replayLoop (hexToUint8Array (rtmrReplay first)) second /\
  rtmrReplay (first ++ [d]) =
    uint8ArrayToHex
      (sha384 (hexToUint8Array (rtmrReplay first) ++
               padEvent (hexToUint8Array d))).
Proof.
  split.
  - rewrite replayLoop_fold, !rtmrReplay_fold, hexToUint8Array_register.
    now rewrite List.fold_left_app.
  - rewrite !rtmrReplay_fold, hexToUint8Array_register, List.fold_left_app.
    reflexivity.
Qed.

Lemma fold_extend_bytes (history : list jsstring) (register : Uint8Array) :
  List.fold_left extend history register =
  List.fold_left (fun r event => sha384 (r ++ event))
    (List.map (fun d => padEvent (hexToUint8Array d)) history) register.
Proof.
  revert register. induction history as [|d rest IH]; intros register.
  - reflexivity.
  - cbn [List.fold_left List.map]. apply IH.
Qed.

Lemma padEvent_idempotent (event : Uint8Array) :
  padEvent (padEvent event) = padEvent event.
Proof. apply padEvent_long. rewrite padEvent_length. lia. Qed.

(** X7.  The replay sees an entry only through its decoded bytes filled up
    to 48: two lists whose entries agree on these give the same register.
    So an entry shorter than 48 bytes cannot be told from the same bytes
    followed by zero bytes. *)
Theorem rtmrReplay_padded_bytes (h1 h2 before after : list jsstring)
    (d : jsstring) :
  (List.map (fun d => padEvent (hexToUint8Array d)) h1 =
   List.map (fun d => padEvent (hexToUint8Array d)) h2 ->
   rtmrReplay h1 = rtmrReplay h2) /\
  rtmrReplay (before ++ d :: after) =
  rtmrReplay
    (before ++ uint8ArrayToHex (padEvent (hexToUint8Array d)) :: after).
Proof.
  split.
  - intros H. rewrite !rtmrReplay_fold, !fold_extend_bytes. now rewrite H.
  - rewrite !rtmrReplay_fold, !fold_extend_bytes, !List.map_app.
    cbn [List.map].
    rewrite hexToUint8Array_register, padEvent_idempotent. reflexivity.
Qed.

Lemma rtmrReplay_padded_bytes_witness :
  rtmrReplay [js "ab"; js "zz"] =
  rtmrReplay [js "xAB" ++ String_repeat (js "00") 47; js ""].
Proof.
  refine (proj1 (rtmrReplay_padded_bytes
                   [js "ab"; js "zz"]
                   [js "xAB" ++ String_repeat (js "00") 47; js ""]
                   [] [] []) _).
  reflexivity.
Defined.

(** ** The event digest *)

Lemma hexToUint8Array_toUpperAscii (hex : jsstring) :
  hexToUint8Array (List.map toUpperAscii hex) = hexToUint8Array hex.
Proof.
  rewrite !hexToUint8Array_pairByte.
  apply pairByte_fold;
    [exact hexClass_toUpperAscii | exact hexValue_toUpperAscii].
Qed.

(** X8.  The event value enters the digest only through the bytes it
    decodes to: two non-empty values that decode alike have the same
    digest, the case of the value does not matter, and a non-empty value
    without a valid pair is digested as the bare frame, the tag, a colon,
    the name and a colon. *)
Theorem calcDigest_decoded_bytes (eventName v1 v2 : jsstring) :
  (v1 <> [] -> v2 <> [] -> hexToUint8Array v1 = hexToUint8Array v2 ->
   calcDigest eventName v1 = calcDigest eventName v2) /\
  calcDigest eventName (List.map toUpperAscii v1) = calcDigest eventName v1 /\
  (v1 <> [] -> hexToUint8Array v1 = [] ->
   calcDigest eventName v1 =
   uint8ArrayToHex
     (sha384 (tagLittleEndian ++ [colon] ++ TextEncoder_encode eventName ++
              [colon]))).
Proof.
  split; [|split].
  - intros H1 H2 H. rewrite !calcDigest_nonempty by assumption.
    unfold eventMessage. now rewrite H.
  - destruct v1 as [|c rest]; [reflexivity|].
    rewrite !calcDigest_nonempty by discriminate.
    unfold eventMessage. now rewrite hexToUint8Array_toUpperAscii.
  - intros H1 H. rewrite calcDigest_nonempty by assumption.
    unfold eventMessage. rewrite H, List.app_nil_r. reflexivity.
Qed.

Lemma calcDigest_decoded_bytes_witness :
  calcDigest (js "app-id") (js "0a 1b") = calcDigest (js "app-id") (js "0A1Bx") /\
  calcDigest (js "app-id") (js "zz") =
  uint8ArrayToHex
    (sha384 (tagLittleEndian ++ [colon] ++
             TextEncoder_encode (js "app-id") ++ [colon])).
Proof.
  split.
  - refine (proj1 (calcDigest_decoded_bytes
                     (js "app-id") (js "0a 1b") (js "0A1Bx")) _ _ _);
      [discriminate | discriminate | reflexivity].
  - refine (proj2 (proj2 (calcDigest_decoded_bytes
                            (js "app-id") (js "zz") [])) _ _);
      [discriminate | reflexivity].
Defined.

(** ** The manifest hasher *)

Section ManifestFurther.
Context {num : NumberOps} {engine : Engine}.

Lemma trimStart_blank (s : jsstring) :
  List.forallb isWhiteSpace s = true -> trimStart s = [].
Proof.
  induction s as [|c s IH]; [reflexivity|].
  cbn [List.forallb trimStart]. destruct (isWhiteSpace c); [|discriminate].
  exact IH.
Qed.

Lemma String_trim_blank (s : jsstring) :
  String_trim s = [] <-> List.forallb isWhiteSpace s = true.
Proof.
  split.
  - intros H. apply String_trim_nil in H.
    apply List.forallb_forall. intros c Hc.
    rewrite Forall_forall in H. now apply H.
  - intros H. unfold String_trim. now rewrite (trimStart_blank s H).
Qed.

Lemma adjustedManifest_raw (text : jsstring) :
  JSON_parse text = None ->
  adjustedManifest text =
  JObject [(js "content", JString text); (docker_config, JObject [])].
Proof.
  intros H. unfold adjustedManifest, manifestDict. now rewrite H.
Qed.

Lemma manifestDigest_shape (document : JSValue) :
  List.length (manifestDigest document) = 64%nat /\
  Forall (fun c => isLowerHex c = true) (manifestDigest document).
Proof.
  split; [apply manifestDigest_length|].
  unfold manifestDigest. rewrite uint8ArrayToHex_encodeHex.
  apply encodeHex_lower.
Qed.

Lemma not_blank (text : jsstring) :
  List.forallb isWhiteSpace text = false ->
  String_not (String_trim text) = false.
Proof.
  intros H. destruct (String_trim text) eqn:E; [|reflexivity].
  apply String_trim_blank in E. congruence.
Qed.

(** X9.  The hash is the empty string for a manifest made of white space
    only, or empty, and for a manifest whose document is nested deeper than
    [JSON.stringify] can follow, where the [catch] answers.  For every
    other manifest it has 64 lowercase hexadecimal characters; a manifest
    that is not blank and not JSON is always one of these. *)
Theorem getComposeHash_blank_or_digest (text : jsstring) :
  (List.forallb isWhiteSpace text = true -> getComposeHash text = []) /\
  ((stackDepth < nesting (adjustedManifest text))%nat ->
   getComposeHash text = []) /\
  (List.forallb isWhiteSpace text = false ->
   (nesting (adjustedManifest text) <= stackDepth)%nat ->
   List.length (getComposeHash text) = 64%nat /\
   Forall (fun c => isLowerHex c = true) (getComposeHash text)) /\
  (List.forallb isWhiteSpace text = false ->
   JSON_parse text = None ->
   List.length (getComposeHash text) = 64%nat /\
   Forall (fun c => isLowerHex c = true) (getComposeHash text)).
Proof.
  split; [|split; [|split]].
  - intros H. apply String_trim_blank in H.
    unfold getComposeHash. now rewrite H.
  - intros H. rewrite getComposeHash_cases. unfold hashable.
    apply Nat.leb_gt in H. rewrite H. now rewrite andb_false_r.
  - intros H Hdepth.
    rewrite getComposeHash_not_blank by (try apply not_blank; assumption).
    apply manifestDigest_shape.
  - intros H Hraw.
    rewrite getComposeHash_not_blank;
      [apply manifestDigest_shape | apply not_blank, H |].
    rewrite (adjustedManifest_raw text Hraw). exact stackDepth_two.
Qed.

(** *** A manifest that is an array or a string *)

Lemma digitChar_digit (d : N) : d < 10 -> isDigit (digitChar d) = true.
Proof.
  intros H. unfold digitChar, isDigit.
  destruct (N.ltb_spec d 10); [|lia].
  apply andb_true_iff. split; apply N.leb_le; lia.
Qed.

Lemma radixDigits_digits (fuel : nat) (n : N) (acc : jsstring) :
  List.forallb isDigit acc = true ->
  List.forallb isDigit (radixDigits fuel 10 n acc) = true.
Proof.
  revert n acc. induction fuel as [|k IH]; intros n acc Hacc; [exact Hacc|].
  cbn [radixDigits].
  assert (Hacc' : List.forallb isDigit (digitChar (n mod 10) :: acc) = true).
  { cbn [List.forallb]. rewrite digitChar_digit, Hacc; [reflexivity|].
    apply N.mod_lt. discriminate. }
  destruct (n <? 10); [exact Hacc' | apply IH, Hacc'].
Qed.

Lemma indexed_keys (values : list JSValue) :
  Forall (fun kv => List.forallb isDigit (fst kv) = true) (indexed values).
Proof.
  apply Forall_forall. intros [k v] Hin. unfold indexed in Hin.
  apply List.in_combine_l in Hin. apply List.in_map_iff in Hin.
  destruct Hin as (i & <- & _). cbn [fst].
  apply radixDigits_digits. reflexivity.
Qed.

Lemma replaceValue_absent (props : properties) (k : jsstring) (v : JSValue) :
  Forall (fun kv => fst kv <> k) props -> replaceValue props k v = None.
Proof.
  induction 1 as [|[k' v'] rest Hk _ IH]; [reflexivity|].
  cbn [replaceValue]. cbn [fst] in Hk.
  destruct (jsstring_eqb k' k) eqn:E.
  - apply jsstring_eqb_eq in E. contradiction.
  - now rewrite IH.
Qed.

Lemma defineProperty_indexed (values : list JSValue) (v : JSValue) :
  defineProperty (indexed values) docker_config v =
  indexed values ++ [(docker_config, v)].
Proof.
  unfold defineProperty. rewrite replaceValue_absent; [reflexivity|].
  eapply Forall_impl; [|apply indexed_keys].
  intros [k w] Hk E. cbn [fst] in *. subst k. discriminate Hk.
Qed.

Lemma combine_snd {A B : Type} (l1 : list A) (l2 : list B) :
  List.length l1 = List.length l2 ->
  List.map snd (List.combine l1 l2) = l2.
Proof.
  revert l2. induction l1 as [|a l1 IH]; intros [|b l2] H;
    try discriminate; [reflexivity|].
  cbn [List.combine List.map snd]. f_equal. apply IH. now injection H.
Qed.

Lemma indexed_values (values : list JSValue) :
  List.map snd (indexed values) = values.
Proof.
  unfold indexed. apply combine_snd.
  now rewrite List.length_map, List.length_seq.
Qed.

(** The document of an array is as deep as the array, and at least as deep
    as the empty object it receives. *)
Lemma nesting_indexed (values : list JSValue) :
  nesting (JObject (indexed values ++ [(docker_config, JObject [])])) =
  Nat.max (nesting (JArray values)) 2.
Proof.
  cbn [nesting]. rewrite List.map_app, List.list_max_app.
  rewrite <- (List.map_map snd nesting (indexed values)), indexed_values.
  cbn [List.map List.list_max snd nesting List.fold_right]. lia.
Qed.

Lemma nesting_units (s : jsstring) :
  nesting (JArray (List.map (fun c => JString [c]) s)) = 1%nat.
Proof.
  cbn [nesting]. f_equal. rewrite List.map_map. cbn [nesting].
  induction s as [|c s IH]; [reflexivity | exact IH].
Qed.

(** X10.  A manifest that parses as an array, or as a string, is hashed as
    the object that has its elements, or its units, under their indices,
    with [docker_config] added last, provided the array is not nested
    deeper than [JSON.stringify] can follow; a deeper array has the empty
    string for its hash.  In both cases the array has the hash of the
    manifest that spells this object out. *)
Theorem getComposeHash_indexed (text other : jsstring)
    (elements : list JSValue) (s : jsstring) :
  (JSON_parse text = Some (JArray elements) ->
   (nesting (JArray elements) <= stackDepth)%nat ->
   getComposeHash text =
   manifestDigest
     (JObject (indexed elements ++ [(docker_config, JObject [])]))) /\
  (JSON_parse text = Some (JArray elements) ->
   (stackDepth < nesting (JArray elements))%nat ->
   getComposeHash text = []) /\
  (JSON_parse text = Some (JString s) ->
   getComposeHash text =
   manifestDigest
     (JObject (indexed (List.map (fun c => JString [c]) s) ++
               [(docker_config, JObject [])]))) /\
  (JSON_parse text = Some (JArray elements) ->
   JSON_parse other = Some (JObject (indexed elements)) ->
   getComposeHash text = getComposeHash other).
Proof.
  pose proof stackDepth_two as Htwo.
  split; [|split; [|split]].
  - intros H Hdepth.
    assert (Hadj : adjustedManifest text =
                   JObject (indexed elements ++
                            [(docker_config, JObject [])])).
    { rewrite (adjustedManifest_parsed _ _ H). cbn [spread].
      now rewrite defineProperty_indexed. }
    rewrite getComposeHash_not_blank;
      [now rewrite Hadj | eapply JSON_parse_not_blank; eauto |].
    rewrite Hadj, nesting_indexed. lia.
  - intros H Hdepth. rewrite getComposeHash_cases. unfold hashable.
    rewrite (adjustedManifest_parsed _ _ H). cbn [spread].
    rewrite defineProperty_indexed, nesting_indexed.
    replace (Nat.max (nesting (JArray elements)) 2 <=? stackDepth)%nat
      with false by (symmetry; apply Nat.leb_gt; lia).
    now rewrite andb_false_r.
  - intros H.
    assert (Hadj : adjustedManifest text =
                   JObject (indexed (List.map (fun c => JString [c]) s) ++
                            [(docker_config, JObject [])])).
    { rewrite (adjustedManifest_parsed _ _ H). cbn [spread].
      now rewrite defineProperty_indexed. }
    rewrite getComposeHash_not_blank;
      [now rewrite Hadj | eapply JSON_parse_not_blank; eauto |].
    rewrite Hadj, nesting_indexed, nesting_units. cbn [Nat.max]. exact Htwo.
  - intros H1 H2. apply getComposeHash_same_document;
      try (eapply JSON_parse_not_blank; eauto).
    rewrite (adjustedManifest_parsed _ _ H1), (adjustedManifest_parsed _ _ H2).
    reflexivity.
Qed.

End ManifestFurther.

Lemma getComposeHash_blank_or_digest_witness :
  getComposeHash [32; 10; 160; 8232] = [] /\
  getComposeHash deepManifest = [] /\
  List.length (getComposeHash (jsq "{'a':[{}]}")) = 64%nat /\
  List.length (getComposeHash (js "x")) = 64%nat.
Proof.
  split; [|split; [|split]].
  - refine (proj1 (getComposeHash_blank_or_digest [32; 10; 160; 8232]) _).
    reflexivity.
  - refine (proj1 (proj2 (getComposeHash_blank_or_digest deepManifest)) _).
    apply Nat.ltb_lt. vm_compute. reflexivity.
  - refine (proj1 (proj1 (proj2 (proj2
              (getComposeHash_blank_or_digest (jsq "{'a':[{}]}"))))
              _ _)).
    + reflexivity.
    + apply Nat.leb_le. vm_compute. reflexivity.
  - refine (proj1 (proj2 (proj2 (proj2
              (getComposeHash_blank_or_digest (js "x")))) _ _));
      reflexivity.
Defined.

Lemma getComposeHash_indexed_witness :
  getComposeHash (jsq "[1,2]") =
  manifestDigest
    (JObject [(js "0", JInteger 1); (js "1", JInteger 2);
              (docker_config, JObject [])]) /\
  getComposeHash (jsq "[1,2]") = getComposeHash (jsq "{'0':1,'1':2}") /\
  getComposeHash (jsq "'ab'") =
  manifestDigest
    (JObject [(js "0", JString (js "a")); (js "1", JString (js "b"));
              (docker_config, JObject [])]) /\
  getComposeHash deepManifest = [].
Proof.
  split; [|split; [|split]].
  - refine (proj1 (getComposeHash_indexed (num := literalNumbers)
              (jsq "[1,2]") [] [JInteger 1; JInteger 2] []) _ _).
    + reflexivity.
    + apply Nat.leb_le. reflexivity.
  - refine (proj2 (proj2 (proj2 (getComposeHash_indexed
              (num := literalNumbers)
              (jsq "[1,2]") (jsq "{'0':1,'1':2}")
              [JInteger 1; JInteger 2] []))) _ _);
      reflexivity.
  - refine (proj1 (proj2 (proj2 (getComposeHash_indexed
              (num := literalNumbers)
              (jsq "'ab'") [] [] (js "ab")))) _).
    reflexivity.
  - refine (proj1 (proj2 (getComposeHash_indexed (num := literalNumbers)
              deepManifest [] [nestedArray 4998] [])) _ _).
    + reflexivity.
    + apply Nat.ltb_lt. vm_compute. reflexivity.
Defined.

(** *** White space around a manifest that parses *)

Section AfterTheValue.
Context {num : NumberOps} {engine : Engine}.

(** What follows the text: a unit of JSON white space, then anything. *)
Variables (c0 : N) (r0 : jsstring).
Hypothesis Hc0 : isJSONWhiteSpace c0 = true.

Lemma jsonWs_cases : c0 = 32 \/ c0 = 9 \/ c0 = 10 \/ c0 = 13.
Proof.
  unfold isJSONWhiteSpace in Hc0.
  rewrite !orb_true_iff, !N.eqb_eq in Hc0. tauto.
Qed.

Ltac ws_cases := destruct jsonWs_cases as [-> | [-> | [-> | ->]]].

Lemma skipWs_app (s : jsstring) :
  skipWs s <> [] -> skipWs (s ++ c0 :: r0) = skipWs s ++ c0 :: r0.
Proof.
  induction s as [|c s IH]; [contradiction|].
  cbn [skipWs List.app]. destruct (isJSONWhiteSpace c); [exact IH|].
  reflexivity.
Qed.

Lemma nextIs_app (c : N) (s : jsstring) :
  skipWs s <> [] ->
  nextIs c (s ++ c0 :: r0) =
  option_map (fun r => r ++ c0 :: r0) (nextIs c s).
Proof.
  intros H. unfold nextIs. rewrite skipWs_app by exact H.
  destruct (skipWs s) as [|x r]; [contradiction|].
  cbn [List.app]. destruct (x =? c); reflexivity.
Qed.

Lemma nextIs_some (c : N) (s r : jsstring) :
  nextIs c s = Some r -> skipWs s <> [].
Proof. unfold nextIs. destruct (skipWs s); [discriminate | discriminate]. Qed.

Lemma parseStringBody_app (s str r : jsstring) :
  parseStringBody s = Some (str, r) ->
  parseStringBody (s ++ c0 :: r0) = Some (str, r ++ c0 :: r0).
Proof.
  remember (List.length s) as n eqn:Hn.
  assert (Hle : (List.length s <= n)%nat) by lia. clear Hn.
  revert s str r Hle.
  induction n as [|n IH]; intros s str r Hle;
    (destruct s as [|c rest]; [discriminate|]); cbn [List.length] in Hle;
    [lia|].
  cbn [parseStringBody List.app].
  destruct (c =? 34); [intros [= <- <-]; reflexivity|].
  destruct (c <? 32); [discriminate|].
  destruct (c =? 92).
  - destruct rest as [|e rest1]; [discriminate|].
    cbn [List.length List.app] in *.
    destruct (e =? 117).
    + destruct rest1 as [|h1 [|h2 [|h3 [|h4 rest2]]]]; try discriminate.
      cbn [List.length List.app] in *.
      destruct (hexDigitValue h1); [|discriminate].
      destruct (hexDigitValue h2); [|discriminate].
      destruct (hexDigitValue h3); [|discriminate].
      destruct (hexDigitValue h4); [|discriminate].
      destruct (parseStringBody rest2) as [[str' r']|] eqn:P; [|discriminate].
      intros [= <- <-]. apply IH in P; [|lia]. rewrite P. reflexivity.
    + destruct (simpleEscape e); [|discriminate].
      destruct (parseStringBody rest1) as [[str' r']|] eqn:P; [|discriminate].
      intros [= <- <-]. apply IH in P; [|lia]. rewrite P. reflexivity.
  - destruct (parseStringBody rest) as [[str' r']|] eqn:P; [|discriminate].
    intros [= <- <-]. apply IH in P; [|lia]. rewrite P. reflexivity.
Qed.

Lemma spanDigits_app (s : jsstring) :
  spanDigits (s ++ c0 :: r0) =
  (fst (spanDigits s), snd (spanDigits s) ++ c0 :: r0).
Proof.
  induction s as [|c s IH].
  - ws_cases; reflexivity.
  - cbn [spanDigits List.app]. destruct (isDigit c); [|reflexivity].
    rewrite IH. destruct (spanDigits s). reflexivity.
Qed.

Lemma digits1_app (s : jsstring) (dr : jsstring * jsstring) :
  digits1 s = Some dr ->
  digits1 (s ++ c0 :: r0) = Some (fst dr, snd dr ++ c0 :: r0).
Proof.
  unfold digits1. rewrite spanDigits_app.
  destruct (spanDigits s) as [[|d ds] r]; [discriminate|].
  intros [= <-]. reflexivity.
Qed.

Lemma intPart_app (s : jsstring) (x : jsstring * jsstring) :
  intPart s = Some x ->
  intPart (s ++ c0 :: r0) = Some (fst x, snd x ++ c0 :: r0).
Proof.
  destruct s as [|c r]; [discriminate|]. cbn [intPart List.app].
  destruct (c =? 48).
  - intros [= <-]. reflexivity.
  - apply (digits1_app (c :: r)).
Qed.

Lemma fracPart_app (s : jsstring) (x : jsstring * jsstring) :
  fracPart s = Some x ->
  fracPart (s ++ c0 :: r0) = Some (fst x, snd x ++ c0 :: r0).
Proof.
  destruct s as [|c r].
  - intros [= <-]. ws_cases; reflexivity.
  - cbn [fracPart List.app]. destruct (c =? 46).
    + destruct (digits1 r) as [dr|] eqn:D; [|discriminate].
      rewrite (digits1_app _ _ D). intros [= <-]. reflexivity.
    + intros [= <-]. reflexivity.
Qed.

Lemma takeSign_app (r : jsstring) :
  takeIf (fun c => (c =? 43) || (c =? 45)) (r ++ c0 :: r0) =
  (fst (takeIf (fun c => (c =? 43) || (c =? 45)) r),
   snd (takeIf (fun c => (c =? 43) || (c =? 45)) r) ++ c0 :: r0).
Proof.
  destruct r as [|c r].
  - ws_cases; reflexivity.
  - cbn [takeIf List.app]. destruct ((c =? 43) || (c =? 45)); reflexivity.
Qed.

Lemma expPart_app (s : jsstring) (x : jsstring * jsstring) :
  expPart s = Some x ->
  expPart (s ++ c0 :: r0) = Some (fst x, snd x ++ c0 :: r0).
Proof.
  destruct s as [|e r].
  - intros [= <-]. ws_cases; reflexivity.
  - cbn [expPart List.app]. destruct ((e =? 101) || (e =? 69)).
    + cbv zeta. rewrite takeSign_app. cbn [snd fst].
      destruct (digits1 (snd (takeIf (fun c => (c =? 43) || (c =? 45)) r)))
        as [dr|] eqn:D; [|discriminate].
      rewrite (digits1_app _ _ D). intros [= <-]. reflexivity.
    + intros [= <-]. reflexivity.
Qed.

Lemma parseNumberToken_app (s : jsstring) (tr : jsstring * jsstring) :
  s <> [] ->
  parseNumberToken s = Some tr ->
  parseNumberToken (s ++ c0 :: r0) = Some (fst tr, snd tr ++ c0 :: r0).
Proof.
  intros Hs. unfold parseNumberToken. cbv zeta.
  destruct s as [|c r]; [contradiction|].
  assert (Hsign : takeIf (N.eqb 45) ((c :: r) ++ c0 :: r0) =
                  (fst (takeIf (N.eqb 45) (c :: r)),
                   snd (takeIf (N.eqb 45) (c :: r)) ++ c0 :: r0)).
  { cbn [takeIf List.app]. destruct (45 =? c); reflexivity. }
  rewrite Hsign. cbn [fst snd].
  destruct (intPart (snd (takeIf (N.eqb 45) (c :: r)))) as [int|] eqn:I;
    [|discriminate].
  rewrite (intPart_app _ _ I). cbn [bind fst snd].
  destruct (fracPart (snd int)) as [frac|] eqn:F; [|discriminate].
  rewrite (fracPart_app _ _ F). cbn [bind fst snd].
  destruct (expPart (snd frac)) as [exp|] eqn:E; [|discriminate].
  rewrite (expPart_app _ _ E). cbn [bind fst snd].
  intros [= <-]. reflexivity.
Qed.

Lemma stripPrefix_app (lit s r : jsstring) :
  stripPrefix lit s = Some r ->
  stripPrefix lit (s ++ c0 :: r0) = Some (r ++ c0 :: r0).
Proof.
  unfold stripPrefix.
  destruct (jsstring_eqb (List.firstn (List.length lit) s) lit) eqn:E;
    [|discriminate].
  intros [= <-]. apply jsstring_eqb_eq in E.
  assert (Hlen : (List.length lit <= List.length s)%nat).
  { apply (f_equal (@List.length N)) in E.
    rewrite List.length_firstn in E. lia. }
  rewrite List.firstn_app, List.skipn_app.
  replace (List.length lit - List.length s)%nat with 0%nat by lia.
  cbn [List.firstn List.skipn]. rewrite List.app_nil_r, E.
  now rewrite jsstring_eqb_refl.
Qed.

Lemma parseValue_some (fuel : nat) (s : jsstring)
    (r : JSValue * jsstring) :
  parseValue fuel s = Some r -> skipWs s <> [].
Proof.
  destruct fuel; [discriminate|]. cbn [parseValue].
  destruct (skipWs s); [discriminate | discriminate].
Qed.

Lemma parseElements_some (fuel : nat) (s : jsstring) (acc : list JSValue)
    (r : JSValue * jsstring) :
  parseElements fuel s acc = Some r -> skipWs s <> [].
Proof.
  destruct fuel; [discriminate|]. cbn [parseElements].
  destruct (parseValue fuel s) eqn:V; [|discriminate].
  intros _. eapply parseValue_some, V.
Qed.

Lemma parseMembers_some (fuel : nat) (s : jsstring) (acc : properties)
    (r : JSValue * jsstring) :
  parseMembers fuel s acc = Some r -> skipWs s <> [].
Proof.
  destruct fuel; [discriminate|]. cbn [parseMembers].
  destruct (nextIs 34 s) eqn:E; [|discriminate].
  intros _. eapply nextIs_some, E.
Qed.

(** A successful call succeeds as well when white space and more follow
    its text, and leaves them after what it left. *)
Lemma parse_app (fuel : nat) :
  (forall s r, parseValue fuel s = Some r ->
               parseValue fuel (s ++ c0 :: r0) =
               Some (fst r, snd r ++ c0 :: r0)) /\
  (forall s acc r, parseElements fuel s acc = Some r ->
                   parseElements fuel (s ++ c0 :: r0) acc =
                   Some (fst r, snd r ++ c0 :: r0)) /\
  (forall s acc r, parseMembers fuel s acc = Some r ->
                   parseMembers fuel (s ++ c0 :: r0) acc =
                   Some (fst r, snd r ++ c0 :: r0)).
Proof.
  induction fuel as [|f (IHv & IHe & IHm)];
    [repeat split; discriminate|].
  split; [|split].
  - intros s r. cbn [parseValue].
    destruct (skipWs s) as [|c rest] eqn:E; [discriminate|].
    rewrite skipWs_app by (rewrite E; discriminate). rewrite E.
    cbn [List.app].
    destruct (c =? 123).
    { destruct (nextIs 125 rest) as [r'|] eqn:N.
      - intros [= <-].
        rewrite nextIs_app by (eapply nextIs_some, N). now rewrite N.
      - intros H.
        rewrite nextIs_app by (eapply parseMembers_some, H).
        rewrite N. cbn [option_map]. apply IHm, H. }
    destruct (c =? 91).
    { destruct (nextIs 93 rest) as [r'|] eqn:N.
      - intros [= <-].
        rewrite nextIs_app by (eapply nextIs_some, N). now rewrite N.
      - intros H.
        rewrite nextIs_app by (eapply parseElements_some, H).
        rewrite N. cbn [option_map]. apply IHe, H. }
    destruct (c =? 34).
    { destruct (parseStringBody rest) as [[str r']|] eqn:P; [|discriminate].
      rewrite (parseStringBody_app _ _ _ P). intros [= <-]. reflexivity. }
    change (c :: rest ++ c0 :: r0) with ((c :: rest) ++ c0 :: r0).
    destruct (c =? 116).
    { destruct (stripPrefix (js "true") (c :: rest)) as [r'|] eqn:P;
        [|discriminate].
      rewrite (stripPrefix_app _ _ _ P). intros [= <-]. reflexivity. }
    destruct (c =? 102).
    { destruct (stripPrefix (js "false") (c :: rest)) as [r'|] eqn:P;
        [|discriminate].
      rewrite (stripPrefix_app _ _ _ P). intros [= <-]. reflexivity. }
    destruct (c =? 110).
    { destruct (stripPrefix (js "null") (c :: rest)) as [r'|] eqn:P;
        [|discriminate].
      rewrite (stripPrefix_app _ _ _ P). intros [= <-]. reflexivity. }
    destruct ((c =? 45) || isDigit c); [|discriminate].
    destruct (parseNumberToken (c :: rest)) as [tr|] eqn:P; [|discriminate].
    rewrite (parseNumberToken_app (c :: rest) tr);
      [| discriminate | exact P].
    intros [= <-]. reflexivity.
  - intros s acc r. cbn [parseElements].
    destruct (parseValue f s) as [vr|] eqn:V; [|discriminate].
    rewrite (IHv _ _ V). cbn [bind fst snd].
    destruct (skipWs (snd vr)) as [|c r'] eqn:E; [discriminate|].
    rewrite skipWs_app by (rewrite E; discriminate). rewrite E.
    cbn [List.app].
    destruct (c =? 44); [apply IHe|].
    destruct (c =? 93); [|discriminate].
    intros [= <-]. reflexivity.
  - intros s acc r. cbn [parseMembers].
    destruct (nextIs 34 s) as [s0|] eqn:N0; [|discriminate].
    rewrite nextIs_app by (eapply nextIs_some, N0). rewrite N0.
    cbn [option_map bind].
    destruct (parseStringBody s0) as [[k rk]|] eqn:K; [|discriminate].
    rewrite (parseStringBody_app _ _ _ K). cbn [bind fst snd].
    destruct (nextIs 58 rk) as [s1|] eqn:N1; [|discriminate].
    rewrite nextIs_app by (eapply nextIs_some, N1). rewrite N1.
    cbn [option_map bind].
    destruct (parseValue f s1) as [vr|] eqn:V; [|discriminate].
    rewrite (IHv _ _ V). cbn [bind fst snd].
    destruct (skipWs (snd vr)) as [|c r'] eqn:E; [discriminate|].
    rewrite skipWs_app by (rewrite E; discriminate). rewrite E.
    cbn [List.app].
    destruct (c =? 44); [apply IHm|].
    destruct (c =? 125); [|discriminate].
    intros [= <-]. reflexivity.
Qed.

End AfterTheValue.

Section AroundTheManifest.
Context {num : NumberOps} {engine : Engine}.

Lemma skipWs_blank (s : jsstring) :
  Forall (fun c => isJSONWhiteSpace c = true) s -> skipWs s = [].
Proof.
  induction 1 as [|c s Hc _ IH]; [reflexivity|].
  cbn [skipWs]. now rewrite Hc.
Qed.

Lemma skipWs_blank_app (r post : jsstring) :
  skipWs r = [] ->
  Forall (fun c => isJSONWhiteSpace c = true) post ->
  skipWs (r ++ post) = [].
Proof.
  intros Hr Hpost. induction r as [|c r IH].
  - apply skipWs_blank, Hpost.
  - cbn [skipWs List.app] in *.
    destruct (isJSONWhiteSpace c); [apply IH, Hr | discriminate].
Qed.

Lemma JSON_parse_result (text : jsstring) (v : JSValue) :
  JSON_parse text = Some v ->
  exists r, parseValue (2 + List.length text) text = Some (v, r) /\
            skipWs r = [].
Proof.
  unfold JSON_parse.
  destruct (parseValue (2 + List.length text) text) as [[v' r]|];
    [|discriminate].
  cbn [bind fst snd]. destruct (skipWs r) eqn:E; [|discriminate].
  intros [= <-]. now exists r.
Qed.

Lemma JSON_parse_trailing (text post : jsstring) (v : JSValue) :
  Forall (fun c => isJSONWhiteSpace c = true) post ->
  JSON_parse text = Some v -> JSON_parse (text ++ post) = Some v.
Proof.
  intros Hpost Hparse.
  destruct post as [|c0 r0]; [now rewrite List.app_nil_r|].
  destruct (JSON_parse_result _ _ Hparse) as (r & Hr & Hws).
  pose proof (proj1 (parse_shorter _) _ _ Hr) as Hshort.
  destruct (parse_fuel_enough (2 + List.length text)) as (Henough & _).
  apply (Henough _ _ (2 + List.length (text ++ c0 :: r0))%nat) in Hr;
    [|rewrite List.length_app; lia].
  inversion Hpost as [|? ? Hc0 _]; subst.
  apply (proj1 (parse_app c0 r0 Hc0 _)) in Hr.
  unfold JSON_parse. rewrite Hr. cbn [bind fst snd].
  now rewrite (skipWs_blank_app _ _ Hws Hpost).
Qed.

Lemma parseValue_skip (fuel : nat) (c : N) (s : jsstring) :
  isJSONWhiteSpace c = true -> parseValue fuel (c :: s) = parseValue fuel s.
Proof.
  intros Hc. destruct fuel; [reflexivity|].
  cbn [parseValue skipWs]. now rewrite Hc.
Qed.

Lemma JSON_parse_leading (pre text : jsstring) (v : JSValue) :
  Forall (fun c => isJSONWhiteSpace c = true) pre ->
  JSON_parse text = Some v -> JSON_parse (pre ++ text) = Some v.
Proof.
  intros Hpre Hparse. induction Hpre as [|c pre Hc _ IH]; [exact Hparse|].
  destruct (JSON_parse_result _ _ IH) as (r & Hr & Hws).
  destruct (parse_fuel_enough (2 + List.length (pre ++ text))) as (Henough & _).
  apply (Henough _ _ (2 + List.length (c :: pre ++ text))%nat) in Hr;
    [|cbn [List.length]; lia].
  unfold JSON_parse. cbn [List.app].
  rewrite parseValue_skip by exact Hc. rewrite Hr. cbn [bind fst snd].
  now rewrite Hws.
Qed.

(** X11.  Spaces, tabs and line ends before and after a manifest that
    parses do not change its hash. *)
Theorem getComposeHash_surrounding_space (pre text post : jsstring)
    (v : JSValue) :
  Forall (fun c => isJSONWhiteSpace c = true) pre ->
  Forall (fun c => isJSONWhiteSpace c = true) post ->
  JSON_parse text = Some v ->
  getComposeHash (pre ++ text ++ post) = getComposeHash text.
Proof.
  intros Hpre Hpost Hparse.
  assert (H : JSON_parse (pre ++ text ++ post) = Some v)
    by (apply JSON_parse_leading, JSON_parse_trailing; assumption).
  apply getComposeHash_same_document;
    try (eapply JSON_parse_not_blank; eauto).
  now rewrite (adjustedManifest_parsed _ _ H),
    (adjustedManifest_parsed _ _ Hparse).
Qed.

End AroundTheManifest.

Lemma getComposeHash_surrounding_space_witness :
  getComposeHash ([32; 10] ++ jsq "{'a':1}" ++ [13; 10; 9]) =
  getComposeHash (jsq "{'a':1}").
Proof.
  apply (getComposeHash_surrounding_space (num := literalNumbers)
           [32; 10] (jsq "{'a':1}") [13; 10; 9]
           (JObject [(js "a", JInteger 1)]));
    [repeat constructor | repeat constructor | reflexivity].
Defined.

(** ** The orchestrator *)

Section OrchestratorFurther.
Context {num : NumberOps} {engine : Engine}.

Lemma String_not_iff (s : jsstring) : String_not s = true <-> s = [].
Proof. destruct s; split; (reflexivity || discriminate). Qed.

Lemma calcDigest_empty_iff (eventName eventValue : jsstring) :
  eventValue = [] <-> calcDigest eventName eventValue = [].
Proof.
  rewrite <- !String_not_iff. now rewrite calcDigest_truthy.
Qed.

Lemma calcDigest_shape (eventName eventValue : jsstring) :
  calcDigest eventName eventValue = [] \/
  (List.length (calcDigest eventName eventValue) = 96%nat /\
   Forall (fun c => isLowerHex c = true) (calcDigest eventName eventValue)).
Proof.
  destruct eventValue as [|c rest]; [left; reflexivity|]. right.
  rewrite calcDigest_nonempty by discriminate.
  rewrite uint8ArrayToHex_encodeHex. split.
  - now rewrite encodeHex_length, sha384_length.
  - apply encodeHex_lower.
Qed.

Lemma hashable_false_iff (text : jsstring) :
  hashable text = false <->
  String_trim text = [] \/
  (stackDepth < nesting (adjustedManifest text))%nat.
Proof.
  unfold hashable.
  rewrite andb_false_iff, negb_false_iff, String_not_iff, Nat.leb_gt.
  reflexivity.
Qed.

(** X12.  Each of the five digests is missing exactly when its own input
    is missing, whatever the other inputs are; for the manifest, missing
    means that it has no hash: it is blank, or its document is nested
    deeper than [JSON.stringify] can follow.  A digest that is there has
    96 lowercase hexadecimal characters. *)
Theorem calculateValues_digests (inputs : Inputs) :
  let result := calculateValues inputs in
  (in_rootFsHash inputs = [] <-> d_rootFsHash (digests result) = []) /\
  (in_appId inputs = [] <-> d_appId (digests result) = []) /\
  (String_trim (in_composeContent inputs) = [] \/
   (stackDepth < nesting (adjustedManifest (in_composeContent inputs)))%nat <->
   d_composeHash (digests result) = []) /\
  (in_caCertHash inputs = [] <-> d_caCertHash (digests result) = []) /\
  (in_instanceId inputs = [] <-> d_instanceId (digests result) = []) /\
  Forall (fun d => d = [] \/
                   (List.length d = 96%nat /\
                    Forall (fun c => isLowerHex c = true) d))
         (Object_values (digests result)).
Proof.
  cbv zeta. unfold calculateValues, Object_values.
  cbn [digests d_rootFsHash d_appId d_composeHash d_caCertHash d_instanceId].
  repeat split; try apply calcDigest_empty_iff;
    try (apply Forall_forall; intros d Hd; cbn [In] in Hd;
         repeat (destruct Hd as [<- | Hd]; [apply calcDigest_shape|]);
         contradiction).
  - intros H. apply hashable_false_iff in H. apply calcDigest_empty_iff.
    apply String_not_iff. rewrite getComposeHash_truthy, H. reflexivity.
  - intros H. apply calcDigest_empty_iff, String_not_iff in H.
    rewrite getComposeHash_truthy in H.
    now apply hashable_false_iff, negb_true_iff.
Qed.

Lemma calcDigest_bytes (eventName eventValue : jsstring) :
  eventValue <> [] ->
  hexToUint8Array (calcDigest eventName eventValue) =
  sha384 (eventMessage eventName eventValue).
Proof.
  intros H. rewrite calcDigest_nonempty by exact H.
  apply hexToUint8Array_register.
Qed.

Lemma String_not_nonempty (s : jsstring) : String_not s = false -> s <> [].
Proof. destruct s; [discriminate | discriminate]. Qed.

(** X13.  When the four hex inputs are not empty and the manifest has a
    hash (it is not blank and its document is not nested deeper than
    [JSON.stringify] can follow), every digest handed to the replay decodes
    to exactly 48 bytes, so the replay pads nothing and every buffer it
    digests has 96 bytes; the register is the chain of SHA-384 over the
    five event messages, root file system first, then application,
    manifest, certificate and instance. *)
Theorem calculateValues_chain (inputs : Inputs) :
  String_trim (in_composeContent inputs) <> [] ->
  (nesting (adjustedManifest (in_composeContent inputs)) <= stackDepth)%nat ->
  in_rootFsHash inputs <> [] ->
  in_appId inputs <> [] ->
  in_caCertHash inputs <> [] ->
  in_instanceId inputs <> [] ->
  let values := Object_values (digests (calculateValues inputs)) in
  List.map hexToUint8Array values = List.map sha384 (eventMessages inputs) /\
  Forall (fun d => padEvent (hexToUint8Array d) = hexToUint8Array d) values /\
  Forall (fun buffer => List.length buffer = 96%nat)
         (replayBuffers zeroRegister values) /\
  rtmr3 (calculateValues inputs) =
  uint8ArrayToHex
    (List.fold_left (fun register message => sha384 (register ++ sha384 message))
                    (eventMessages inputs) zeroRegister).
Proof.
  intros Hblank Hdepth Hroot Happ Hcert Hinstance. cbv zeta.
  assert (Hall : allPresent inputs = true)
    by (apply allPresent_iff; repeat split; assumption).
  assert (Hevery :
            every_truthy (Object_values (digests (calculateValues inputs))) =
            true) by (now rewrite every_truthy_digests).
  assert (Hcompose : getComposeHash (in_composeContent inputs) <> []).
  { apply String_not_nonempty. rewrite getComposeHash_truthy.
    unfold hashable.
    rewrite (proj2 (String_not_false_iff _) Hblank),
      (proj2 (Nat.leb_le _ _) Hdepth).
    reflexivity. }
  assert (Hbytes :
            List.map hexToUint8Array
              (Object_values (digests (calculateValues inputs))) =
            List.map sha384 (eventMessages inputs)).
  { unfold calculateValues, Object_values, eventMessages.
    cbn [digests d_rootFsHash d_appId d_composeHash d_caCertHash
         d_instanceId List.map].
    now rewrite !calcDigest_bytes by assumption. }
  assert (Hlen :
            Forall (fun d => List.length (hexToUint8Array d) = 48%nat)
                   (Object_values (digests (calculateValues inputs)))).
  { apply Forall_forall. intros d Hd.
    apply (List.in_map hexToUint8Array) in Hd. rewrite Hbytes in Hd.
    apply List.in_map_iff in Hd. destruct Hd as (m & <- & _).
    apply sha384_length. }
  split; [exact Hbytes|]. split; [|split].
  - eapply Forall_impl; [|exact Hlen]. intros d Hd. cbv beta in Hd.
    apply padEvent_long. lia.
  - apply replayBuffers_96; [reflexivity|].
    eapply Forall_impl; [|exact Hlen]. intros d Hd. cbv beta in *. lia.
  - assert (Hr : rtmr3 (calculateValues inputs) =
                 rtmrReplay
                   (Object_values (digests (calculateValues inputs)))).
    { change (rtmr3 (calculateValues inputs))
        with (if every_truthy
                   (Object_values (digests (calculateValues inputs)))
              then rtmrReplay
                     (Object_values (digests (calculateValues inputs)))
              else []).
      now rewrite Hevery. }
    rewrite Hr, rtmrReplay_fold, fold_extend_bytes. f_equal.
    assert (Hpad :
              List.map (fun d => padEvent (hexToUint8Array d))
                (Object_values (digests (calculateValues inputs))) =
              List.map sha384 (eventMessages inputs)).
    { rewrite <- Hbytes. apply List.map_ext_in. intros d Hd.
      rewrite Forall_forall in Hlen. apply padEvent_long.
      rewrite (Hlen d Hd). lia. }
    rewrite Hpad.
    generalize zeroRegister. generalize (eventMessages inputs).
    induction l as [|m l IH]; intros register; [reflexivity|].
    cbn [List.map List.fold_left]. apply IH.
Qed.

End OrchestratorFurther.

Lemma calculateValues_digests_witness :
  d_rootFsHash (digests (calculateValues invalidHexInputs)) <> [] /\
  d_appId (digests (calculateValues
                      (setInput scenarioInputs K_appId []))) = [] /\
  d_composeHash (digests (calculateValues
                            (setComposeContent scenarioInputs
                                               deepManifest))) = [].
Proof.
  split; [|split].
  - destruct (calculateValues_digests (num := literalNumbers)
                invalidHexInputs) as (Hroot & _).
    intros H. apply (proj2 Hroot) in H. discriminate H.
  - destruct (calculateValues_digests (num := literalNumbers)
                (setInput scenarioInputs K_appId [])) as (_ & Happ & _).
    apply (proj1 Happ). reflexivity.
  - destruct (calculateValues_digests (num := literalNumbers)
                (setComposeContent scenarioInputs deepManifest))
      as (_ & _ & Hcompose & _).
    apply (proj1 Hcompose). right.
    apply Nat.ltb_lt. vm_compute. reflexivity.
Defined.

Lemma calculateValues_chain_witness :
  rtmr3 (calculateValues scenarioInputs) =
  uint8ArrayToHex
    (List.fold_left (fun register message => sha384 (register ++ sha384 message))
                    (eventMessages scenarioInputs) zeroRegister).
Proof.
  refine (proj2 (proj2 (proj2
            (calculateValues_chain (num := literalNumbers) scenarioInputs
               _ _ _ _ _ _))));
    try (vm_compute; discriminate).
  apply Nat.leb_le. vm_compute. reflexivity.
Defined.

(** ** The component *)

Section ComponentProperties.
Context {num : NumberOps} {engine : Engine}.

Lemma cleanup_unmounted (runs : list Run) :
  Forall (fun r => isMounted r = false) (cleanup runs).
Proof. induction runs; constructor; [reflexivity | assumption]. Qed.

Lemma removeNth_Forall {A : Type} (P : A -> Prop) (n : nat) (l : list A) :
  Forall P l -> Forall P (removeNth n l).
Proof.
  intros H. revert n. induction H as [|x l Hx Hl IH]; intros n.
  - destruct n; constructor.
  - destruct n; cbn [removeNth]; [exact Hl|]. constructor; [exact Hx|].
    apply IH.
Qed.

Lemma removeNth_Exists {A : Type} (P : A -> Prop) (n : nat) (l : list A)
    (x : A) :
  List.nth_error l n = Some x -> ~ P x -> Exists P l ->
  Exists P (removeNth n l).
Proof.
  revert n. induction l as [|y l IH]; intros n Hn Hx Hex.
  - inversion Hex.
  - destruct n as [|n]; cbn [List.nth_error removeNth] in *.
    + injection Hn as ->. inversion Hex; [contradiction | assumption].
    + inversion Hex as [? ? Hy | ? ? Hl]; subst.
      * now apply Exists_cons_hd.
      * apply Exists_cons_tl. now apply (IH n).
Qed.

Lemma initialCalculated_calculateValues :
  initialCalculated = calculateValues initialInputs.
Proof. reflexivity. Qed.

Lemma mounted_invariant : settled_or_running mounted.
Proof.
  unfold settled_or_running, mounted. cbn [st_runs st_inputs st_calculated].
  split; [|split].
  - constructor; [reflexivity | constructor].
  - right. now apply Exists_cons_hd.
  - exists initialInputs. apply initialCalculated_calculateValues.
Qed.

Lemma render_invariant (c : Component) (inputs : Inputs) :
  settled_or_running c -> settled_or_running (render c inputs).
Proof.
  intros (_ & _ & Hsome). unfold settled_or_running, render.
  cbn [st_runs st_inputs st_calculated]. split; [|split].
  - apply Forall_app. split.
    + eapply Forall_impl; [|apply cleanup_unmounted].
      intros r Hr. cbv beta in Hr. rewrite Hr. discriminate.
    + constructor; [reflexivity | constructor].
  - right. apply Exists_app. right. now apply Exists_cons_hd.
  - exact Hsome.
Qed.

Lemma step_invariant (c : Component) (e : Event) :
  settled_or_running c -> settled_or_running (step c e).
Proof.
  intros Hc. destruct e as [value | field value | index]; cbn [step].
  - now apply render_invariant.
  - now apply render_invariant.
  - destruct (List.nth_error (st_runs c) index) as [r|] eqn:E; [|exact Hc].
    destruct Hc as (Hruns & Hcalc & Hsome).
    unfold settled_or_running. cbn [st_runs st_inputs st_calculated].
    split; [now apply removeNth_Forall|].
    destruct (isMounted r) eqn:M.
    + assert (Hr : closureInputs r = st_inputs c).
      { rewrite Forall_forall in Hruns.
        apply (Hruns r); [eapply List.nth_error_In, E | exact M]. }
      rewrite Hr. split; [now left | now exists (st_inputs c)].
    + split; [|exact Hsome].
      destruct Hcalc as [Hcalc | Hex]; [now left | right].
      apply (removeNth_Exists _ _ _ r E); [|exact Hex].
      rewrite M. discriminate.
Qed.

Lemma run_invariant (events : list Event) : settled_or_running (run events).
Proof.
  unfold run. induction events as [|e events IH] using List.rev_ind.
  - apply mounted_invariant.
  - rewrite List.fold_left_app. cbn [List.fold_left].
    now apply step_invariant.
Qed.

(** X14.  After any sequence of changes and ends of runs, a run that may
    still write holds the inputs now on the page, so a run started for
    inputs that have changed since never writes; and as soon as no run
    that may write is left, what is shown is the result for the inputs on
    the page. *)
Theorem run_no_stale_result (events : list Event) :
  let c := run events in
  Forall (fun r => isMounted r = true -> closureInputs r = st_inputs c)
         (st_runs c) /\
  (Forall (fun r => isMounted r = false) (st_runs c) ->
   st_calculated c = calculateValues (st_inputs c)).
Proof.
  cbv zeta. destruct (run_invariant events) as (Hruns & Hcalc & _).
  split; [exact Hruns|]. intros Hnone.
  destruct Hcalc as [Hcalc | Hex]; [exact Hcalc|].
  apply Exists_exists in Hex. destruct Hex as (r & Hin & Hr).
  rewrite Forall_forall in Hnone. rewrite (Hnone r Hin) in Hr.
  discriminate.
Qed.

Lemma FlowBox_dots (title value : jsstring) :
  value = [] \/ List.length value = 96%nat ->
  (snd (FlowBox title value) = js "..." <-> value = []).
Proof.
  unfold FlowBox. cbn [snd]. intros [-> | Hlen]; [split; reflexivity|].
  destruct value as [|c rest]; [discriminate|]. cbn [String_not].
  split; [|discriminate]. intros H. rewrite H in Hlen. discriminate.
Qed.

(** X15.  On the page reached by any sequence of events no box is ever
    empty, and the box of the final register shows the three dots exactly
    when one of the five digest boxes does; otherwise it shows 96
    lowercase hexadecimal characters. *)
Theorem boxes_final_register (events : list Event) :
  let c := run events in
  let shown := fun value => snd (FlowBox [] value) in
  Forall (fun box => snd box <> []) (boxes c) /\
  (shown (rtmr3 (st_calculated c)) = js "..." <->
   Exists (fun d => shown d = js "...")
          (Object_values (digests (st_calculated c)))) /\
  (shown (rtmr3 (st_calculated c)) = js "..." \/
   (List.length (shown (rtmr3 (st_calculated c))) = 96%nat /\
    Forall (fun ch => isLowerHex ch = true)
           (shown (rtmr3 (st_calculated c))))).
Proof.
  cbv zeta. destruct (run_invariant events) as (_ & _ & inputs & Hcalc).
  rewrite Hcalc. split; [|split].
  - unfold boxes. cbv zeta. apply Forall_forall. intros box Hin.
    cbn [In] in Hin.
    repeat (destruct Hin as [<- | Hin];
            [unfold FlowBox; cbn [snd];
             match goal with
             | |- (if String_not ?v then _ else _) <> [] =>
                 destruct v; cbn [String_not]; discriminate
             end|]).
    contradiction.
  - set (values := Object_values (digests (calculateValues inputs))).
    assert (Hr : rtmr3 (calculateValues inputs) =
                 if every_truthy values then rtmrReplay values else [])
      by reflexivity.
    assert (Hshape : Forall (fun d => d = [] \/ List.length d = 96%nat)
                            values).
    { subst values. unfold calculateValues, Object_values.
      cbn [digests d_rootFsHash d_appId d_composeHash d_caCertHash
           d_instanceId].
      apply Forall_forall. intros d Hd. cbn [In] in Hd.
      repeat (destruct Hd as [<- | Hd];
              [match goal with
               | |- calcDigest ?n ?v = [] \/ _ =>
                   destruct (calcDigest_shape n v) as [H | [H _]]; auto
               end|]).
      contradiction. }
    rewrite FlowBox_dots
      by (rewrite Hr; destruct (every_truthy values);
          [right; apply rtmrReplay_length | now left]).
    rewrite Hr. split.
    + destruct (every_truthy values) eqn:E.
      * intros H. pose proof (rtmrReplay_length values) as Hlen.
        rewrite H in Hlen. discriminate.
      * intros _. unfold every_truthy in E.
        assert (Hex : Exists (fun d => String_not d = true) values).
        { clear -E. induction values as [|d l IH]; [discriminate|].
          cbn [List.forallb] in E. destruct (String_not d) eqn:D.
          - now apply Exists_cons_hd.
          - apply Exists_cons_tl, IH, E. }
        eapply Exists_impl; [|exact Hex]. intros d Hd.
        apply String_not_iff in Hd. now subst d.
    + intros Hex. apply Exists_exists in Hex.
      destruct Hex as (d & Hin & Hd).
      rewrite Forall_forall in Hshape.
      apply (FlowBox_dots [] d (Hshape d Hin)) in Hd. subst d.
      assert (E : every_truthy values = false).
      { unfold every_truthy. clear -Hin.
        induction values as [|d l IH]; [contradiction|].
        cbn [List.forallb]. destruct Hin as [-> | Hin]; [reflexivity|].
        rewrite (IH Hin). apply andb_false_r. }
      now rewrite E.
  - assert (Hr : rtmr3 (calculateValues inputs) =
                 if every_truthy
                      (Object_values (digests (calculateValues inputs)))
                 then rtmrReplay
                        (Object_values (digests (calculateValues inputs)))
                 else []) by reflexivity.
    rewrite Hr.
    destruct (every_truthy (Object_values (digests (calculateValues inputs)))).
    + right. unfold FlowBox. cbn [snd].
      pose proof (rtmrReplay_length
                    (Object_values (digests (calculateValues inputs))))
        as Hlen.
      destruct (rtmrReplay
                  (Object_values (digests (calculateValues inputs))))
        as [|ch rest] eqn:R; [discriminate|].
      cbn [String_not]. split; [exact Hlen|].
      rewrite <- R, rtmrReplay_fold, uint8ArrayToHex_encodeHex.
      apply encodeHex_lower.
    + now left.
Qed.

End ComponentProperties.

(** A change of the application identifier while the first run is under
    way; the new run ends first, then the one it replaced. *)
Lemma run_no_stale_result_witness :
  st_calculated
    (run [ChangeInput K_appId (js "0a"); RunEnds 1; RunEnds 0]) =
  calculateValues (setInput initialInputs K_appId (js "0a")).
Proof.
  refine (proj2 (run_no_stale_result (num := literalNumbers)
                   [ChangeInput K_appId (js "0a"); RunEnds 1; RunEnds 0]) _).
  constructor.
Defined.

Lemma boxes_final_register_witness :
  snd (FlowBox [] (rtmr3 (st_calculated (run [RunEnds 0])))) = js "...".
Proof.
  refine (proj2 (proj1 (proj2 (boxes_final_register (num := literalNumbers)
                                 [RunEnds 0]))) _).
  apply Exists_cons_hd. reflexivity.
Defined.
